(** * CollisionAnimation: the event-driven elastic-collision engine

    A shallow embedding of [src/Box.py] (class [Box]), of
    [elastic_collision_sim] in [src/tools.py] and of
    [prepare_animation_data] in [src/animation.py].

    Numbers.  Every attribute of a [Box] is a Python [float].  The model
    takes them as exact rationals ([Q]): sums, products and quotients are
    the mathematical ones, and there is no rounding, infinity or NaN.  What
    the model keeps of Python's arithmetic is its partiality: a float
    division by zero raises [ZeroDivisionError].  [float(e)] is the
    identity on such numbers.  The floats of the program round: they
    compute the same expressions on the same operands in the same order,
    and agree with the model wherever no result needs rounding.  The
    statements below are of two kinds.  Most are about which expression
    is computed, which branch is taken, what is appended and what is
    raised, and do not rest on the value of a rounded result.  A statement
    that does rest on such values (a whole run on given inputs) is made
    for inputs on which the program's arithmetic is exact: whole numbers
    small enough that every intermediate result is a whole number below
    [2^53].

    Effects.  A [Box] is a mutable object; a method is a function from the
    object's state to an outcome (a value or a raised exception) and the
    state the object is left in, so that what an exception leaves behind
    is part of the model.  The engine works on the store of its two boxes.

    Loop.  [while True] is run with a fuel; [None] is the fuel running out.
    The same loop is also given as a step relation ([reaches]) for the
    statements about every state of a run.

    Output.  The report printed when the loop exits and the wall-clock
    timing ([time()]) do not act on the boxes or on the returned
    dictionary and are left out.  ([format_scientific] divides by
    [10**exponent], which is zero only for a value so small that the
    power underflows; the runs stated to return have masses and times
    far from that.) *)

From Stdlib Require Import QArith Qabs Qminmax Lqa List Bool Arith Lia.
Import ListNotations.
Open Scope Q_scope.

(** ** Python values *)

(** The exceptions the two files can raise, one constructor per [raise]
    site or failing primitive.  [Box.py] and [tools.py] use [ValueError]
    and [Exception] with distinct messages; the spec's names are
    InvalidParameter ([ValueError_mass], [ValueError_length]), InvalidTime
    ([ValueError_time]), OverlapError ([Exception_overlap]),
    BoundaryViolation ([Exception_boundary]) and OrderingViolation
    ([Exception_order]). *)
Inductive exn : Type :=
| ValueError_mass        (* "Mass must be greater than 0." *)
| ValueError_length      (* "Length must be greater than 0." *)
| ValueError_time        (* "Time must be greater than or equal to 0 s." *)
| Exception_overlap      (* "Simulation failed. Boxes overlap!" *)
| Exception_boundary     (* "One or both boxes are outside the left boundary ..." *)
| Exception_order        (* "Box 2 must be placed to the right of Box 1." *)
| ZeroDivisionError      (* float division by zero *)
| ValueError_zero_size   (* np.min of an empty array *)
| IndexError.            (* list index out of range *)

Inductive outcome (A : Type) : Type :=
| Ok (a : A)
| Raise (e : exn).
Arguments Ok {A} a.
Arguments Raise {A} e.

(** A computation on a mutable state [S]: the outcome and the state left. *)
Definition M (S A : Type) : Type := S -> outcome A * S.

Definition ret {S A} (a : A) : M S A := fun s => (Ok a, s).

Definition bind {S A B} (c : M S A) (k : A -> M S B) : M S B :=
  fun s => match c s with
           | (Ok a, s') => k a s'
           | (Raise e, s') => (Raise e, s')
           end.

(** A pure, fallible expression inside a computation. *)
Definition lift {S A} (o : outcome A) : M S A := fun s => (o, s).

Declare Scope py_scope.
Delimit Scope py_scope with py.
Notation "x <- c ;; k" := (bind c (fun x => k))
  (at level 61, c at next level, right associativity) : py_scope.
Notation "c ;;; k" := (bind c (fun _ => k))
  (at level 61, right associativity) : py_scope.

(** [a < b] on floats. *)
Definition Qltb (a b : Q) : bool := negb (Qle_bool b a).

(** [a / b] on floats. *)
Definition py_div (a b : Q) : outcome Q :=
  if Qeq_bool b 0 then Raise ZeroDivisionError else Ok (a / b).

(** [a[-1]]. *)
Definition last_item (a : list Q) : outcome Q :=
  match a with
  | [] => Raise IndexError
  | _ :: _ => Ok (last a 0)
  end.

(** [np.diff(a)]: the differences of consecutive items. *)
Fixpoint np_diff (a : list Q) : list Q :=
  match a with
  | a0 :: (a1 :: _) as tl => (a1 - a0) :: np_diff tl
  | _ => []
  end.

(** [np.min(a)]: refuses an empty array. *)
Definition np_min (a : list Q) : outcome Q :=
  match a with
  | [] => Raise ValueError_zero_size
  | a0 :: tl => Ok (fold_left Qmin tl a0)
  end.

(** ** class Box *)

Module Box.

(** The attributes of a box.  [x0] and [v0] keep the constructor's
    arguments; [times] is the cumulative time of each recorded state. *)
Record t : Type := mk {
  x : Q;
  m : Q;
  l : Q;
  v : Q;
  v0 : Q;
  x0 : Q;
  p : Q;
  x_hist : list Q;
  v_hist : list Q;
  p_hist : list Q;
  times : list Q
}.

(** [Box(x0, m, v0, l)].  The object under construction is dropped when
    [__init__] raises, so a failure carries no state. *)
Definition __init__ (x0 m v0 l : Q) : outcome t :=
  let self_x := x0 in
  if Qle_bool m 0 then Raise ValueError_mass
  else if Qle_bool l 0 then Raise ValueError_length
  else
    let self_m := m in
    let self_l := l in
    let self_v := v0 in
    let self_p := self_m * self_v in
    Ok (mk self_x self_m self_l self_v v0 x0 self_p
           [self_x] [self_v] [self_p] [0]).

(** [self.update(v, x, t)].  The assignments and the three appends come
    before [self.times[-1]] is read, so an [IndexError] there would leave
    them done. *)
Definition update (v x t : Q) : M Box.t unit := fun self =>
  if Qltb t 0 then (Raise ValueError_time, self)
  else
    let self_p := Box.m self * v in
    let self' :=
      mk x (Box.m self) (Box.l self) v (Box.v0 self) (Box.x0 self) self_p
         (Box.x_hist self ++ [x]) (Box.v_hist self ++ [v])
         (Box.p_hist self ++ [self_p]) (Box.times self) in
    match last_item (Box.times self') with
    | Raise e => (Raise e, self')
    | Ok tl =>
        (Ok tt,
         mk x (Box.m self) (Box.l self) v (Box.v0 self) (Box.x0 self) self_p
            (Box.x_hist self ++ [x]) (Box.v_hist self ++ [v])
            (Box.p_hist self ++ [self_p]) (Box.times self ++ [t + tl]))
    end.

(** [self.check_overlap(Box2)]: reads both boxes, writes neither. *)
Definition check_overlap (self Box2 : Box.t) : outcome unit :=
  let x1 := Box.x0 self in
  let x2 := Box.x0 Box2 in
  let l1 := Box.l self in
  let l2 := Box.l Box2 in
  if Qltb x2 (x1 + l1) && Qle_bool (x1 + l1) (x2 + l2)
  then Raise Exception_overlap
  else Ok tt.

End Box.

(** ** elastic_collision_sim *)

(** The two objects the engine is handed: [Box1] and [Box2].  They are two
    objects: were one box passed twice, [check_overlap] would raise
    ([x0 < x0 + l <= x0 + l] for [l > 0]) before anything is written. *)
Definition store : Type := (Box.t * Box.t)%type.

Definition on_Box1 {A} (c : M Box.t A) : M store A :=
  fun s => let '(o, b) := c (fst s) in (o, (b, snd s)).

Definition on_Box2 {A} (c : M Box.t A) : M store A :=
  fun s => let '(o, b) := c (snd s) in (o, (fst s, b)).

(** The returned dictionary.  Its two boxes are the caller's objects. *)
Record sim_data : Type := mk_sim_data {
  Collisions : nat;
  Smallest_Interval : Q;
  Box_1 : Box.t;
  Box_2 : Box.t
}.

(** How one pass through the body of [while True] ends: at the bottom,
    with the counter it leaves, or at [break], with [dt_min]. *)
Inductive flow : Type :=
| Next (collisions : nat)
| Break (dt_min : Q).

(** The last three statements of the loop body (lines 103 to 106). *)
Definition advance (collisions : nat) (x1 v1 x2 v2 v1f v2f t : Q) : M store flow :=
  (let collisions := S collisions in
   on_Box1 (Box.update v1f (x1 + v1 * t) t) ;;;
   on_Box2 (Box.update v2f (x2 + v2 * t) t) ;;;
   ret (Next collisions))%py.

Definition loop_body (left_bound : Q) (collisions : nat) : M store flow :=
  fun s =>
    let Box1 := fst s in
    let Box2 := snd s in
    let m1 := Box.m Box1 in
    let x1 := Box.x Box1 in
    let x2 := Box.x Box2 in
    let l1 := Box.l Box1 in
    let m2 := Box.m Box2 in
    let v1 := Box.v Box1 in
    let v2 := Box.v Box2 in
    if Qltb v1 0 then
      (let dx := Qabs (x1 - left_bound) in
       t <- lift (py_div dx (Qabs v1)) ;;
       let v1f := - v1 in
       let v2f := v2 in
       advance collisions x1 v1 x2 v2 v1f v2f t)%py s
    else if Qltb v1 v2 && Qltb 0 v2 then
      (dt_min <- lift (np_min (np_diff (Box.times Box1))) ;;
       ret (Break dt_min))%py s
    else
      (t <- lift (py_div (x1 + l1 - x2) (v2 - v1)) ;;
       v1f <- lift (py_div ((m1 - m2) * v1 + 2 * m2 * v2) (m1 + m2)) ;;
       v2f <- lift (py_div ((m2 - m1) * v2 + 2 * m1 * v1) (m1 + m2)) ;;
       advance collisions x1 v1 x2 v2 v1f v2f t)%py s.

(** [while True]: [None] when the fuel runs out before the loop ends. *)
Fixpoint while_True (fuel : nat) (left_bound : Q) (collisions : nat) (s : store)
  : option (outcome (nat * Q) * store) :=
  match fuel with
  | O => None
  | S fuel' =>
      match loop_body left_bound collisions s with
      | (Raise e, s') => Some (Raise e, s')
      | (Ok (Break dt_min), s') => Some (Ok (collisions, dt_min), s')
      | (Ok (Next collisions'), s') => while_True fuel' left_bound collisions' s'
      end
  end.

(** The checks made before the loop (lines 48 to 54). *)
Definition preconditions (Box1 Box2 : Box.t) (left_bound : Q) : outcome unit :=
  match Box.check_overlap Box1 Box2 with
  | Raise e => Raise e
  | Ok _ =>
      if Qltb (Box.x0 Box1) left_bound || Qltb (Box.x0 Box2) left_bound
      then Raise Exception_boundary
      else if Qltb (Box.x0 Box2) (Box.x0 Box1)
      then Raise Exception_order
      else Ok tt
  end.

Definition elastic_collision_sim (fuel : nat) (Box1 Box2 : Box.t) (left_bound : Q)
  : option (outcome sim_data * store) :=
  match preconditions Box1 Box2 left_bound with
  | Raise e => Some (Raise e, (Box1, Box2))
  | Ok _ =>
      match while_True fuel left_bound 0 (Box1, Box2) with
      | None => None
      | Some (Raise e, s') => Some (Raise e, s')
      | Some (Ok (collisions, dt_min), s') =>
          Some (Ok (mk_sim_data collisions dt_min (fst s') (snd s')), s')
      end
  end.

(** The loop as a step relation: [reaches lb c s c' s'] when the loop,
    entered with counter [c] and store [s], comes back to its head with
    counter [c'] and store [s'] after some number of events. *)
Inductive reaches (left_bound : Q) : nat -> store -> nat -> store -> Prop :=
| reaches_here : forall c s, reaches left_bound c s c s
| reaches_event : forall c s c1 s1 c' s',
    loop_body left_bound c s = (Ok (Next c1), s1) ->
    reaches left_bound c1 s1 c' s' ->
    reaches left_bound c s c' s'.

(** ** Sequences of calls, and what the statements speak of *)

(** [self.update(v, x, t)] for each [(v, x, t)] of [calls] in turn, up to
    the first call that raises. *)
Fixpoint update_all (calls : list (Q * Q * Q)) : M Box.t unit :=
  match calls with
  | [] => ret tt
  | (v, x, t) :: rest => (Box.update v x t ;;; update_all rest)%py
  end.

(** The box a successful [self.update(v, x, t)] leaves. *)
Definition updated (self : Box.t) (v x t : Q) : Box.t :=
  Box.mk x (Box.m self) (Box.l self) v (Box.v0 self) (Box.x0 self)
         (Box.m self * v)
         (Box.x_hist self ++ [x]) (Box.v_hist self ++ [v])
         (Box.p_hist self ++ [Box.m self * v])
         (Box.times self ++ [t + last (Box.times self) 0]).

(** A sequence of event times that never goes back. *)
Fixpoint nondecreasing (a : list Q) : Prop :=
  match a with
  | a0 :: (a1 :: _) as tl => a0 <= a1 /\ nondecreasing tl
  | _ => True
  end.

(** The history invariant of one box. *)
Record hist_inv (b : Box.t) : Prop := mk_hist_inv {
  hist_x : length (Box.x_hist b) = length (Box.times b);
  hist_v : length (Box.v_hist b) = length (Box.times b);
  hist_p : length (Box.p_hist b) = length (Box.times b);
  hist_len : (1 <= length (Box.times b))%nat;
  hist_times : nondecreasing (Box.times b)
}.

(** The history invariant of the pair the engine works on. *)
Record aligned (s : store) : Prop := mk_aligned {
  aligned_1 : hist_inv (fst s);
  aligned_2 : hist_inv (snd s);
  aligned_times : Box.times (fst s) = Box.times (snd s)
}.

(** The two footprints [[x0, x0 + l)] share a point. *)
Definition footprints_intersect (Box1 Box2 : Box.t) : Prop :=
  Box.x0 Box1 < Box.x0 Box2 + Box.l Box2 /\
  Box.x0 Box2 < Box.x0 Box1 + Box.l Box1.

(** The box [Box(x0, m, v0, l)] constructs when it does not raise. *)
Definition constructed (x0 m v0 l : Q) : Box.t :=
  Box.mk x0 m l v0 v0 x0 (m * v0) [x0] [v0] [m * v0] [0].

(** ** prepare_animation_data *)

(** [prepare_animation_data] in [src/animation.py], the reader of the
    histories a run leaves: it cuts each gap between events into frames
    and adds five seconds of free motion after the last event.  Its
    numbers are numpy floats, taken as exact rationals like the boxes';
    [fps] is a Python [int].  The function writes to neither box. *)

(** Its failures: those of the other two files, and [np.linspace]'s
    [ValueError] ("Number of samples, n, must be non-negative."). *)
Inductive np_exn : Type :=
| Py (e : exn)
| ValueError_samples.

Inductive result (A : Type) : Type :=
| Done (a : A)
| Failed (e : np_exn).
Arguments Done {A} a.
Arguments Failed {A} e.

Definition and_then {A B} (c : result A) (k : A -> result B) : result B :=
  match c with
  | Done a => k a
  | Failed e => Failed e
  end.

Declare Scope np_scope.
Delimit Scope np_scope with np.
Notation "x <~ c ;; k" := (and_then c (fun x => k))
  (at level 61, c at next level, right associativity) : np_scope.

(** [int(q)]: the integer part, rounding to zero. *)
Definition py_int (q : Q) : Z := Z.quot (Qnum q) (Z.pos (Qden q)).

(** [a[i]] for an index [i >= 0]. *)
Definition item (a : list Q) (i : nat) : result Q :=
  match nth_error a i with
  | Some q => Done q
  | None => Failed (Py IndexError)
  end.

(** [a[-1]]. *)
Definition last_of (a : list Q) : result Q :=
  match a with
  | [] => Failed (Py IndexError)
  | _ :: _ => Done (last a 0)
  end.

(** [np.linspace(start, stop, num)]: [num] evenly spaced samples from
    [start], the last one set to [stop]; a single sample is [start]. *)
Definition np_linspace (start stop : Q) (num : Z) : result (list Q) :=
  if (num <? 0)%Z then Failed ValueError_samples
  else
    let div := (num - 1)%Z in
    if (0 <? div)%Z then
      let step := (stop - start) / inject_Z div in
      Done (map (fun i => start + inject_Z (Z.of_nat i) * step)
                (seq 0 (Z.to_nat div)) ++ [stop])
    else if (num =? 1)%Z then Done [start]
    else Done [].

(** The [for] loop over [enumerate(dt_arr, start=1)], from index [i] on,
    with the three lists it extends. *)
Fixpoint sample_events (fps : Z) (x_hist1 x_hist2 : list Q) (i : nat)
         (dt_arr : list Q) (x1 x2 : list Q) (collision_frames : list Z)
  : result (list Q * list Q * list Z) :=
  match dt_arr with
  | [] => Done (x1, x2, collision_frames)
  | dt :: rest =>
      let frames := py_int (dt * inject_Z fps) in
      let collision_frames :=
        match collision_frames with
        | [] => collision_frames ++ [frames]
        | _ :: _ => collision_frames ++ [(last collision_frames 0 + frames)%Z]
        end in
      (a1 <~ item x_hist1 (i - 1) ;;
       b1 <~ item x_hist1 i ;;
       seg1 <~ np_linspace a1 b1 (frames + 1) ;;
       let x1 := x1 ++ removelast seg1 in
       a2 <~ item x_hist2 (i - 1) ;;
       b2 <~ item x_hist2 i ;;
       seg2 <~ np_linspace a2 b2 (frames + 1) ;;
       let x2 := x2 ++ removelast seg2 in
       sample_events fps x_hist1 x_hist2 (S i) rest x1 x2 collision_frames)%np
  end.

Definition prepare_animation_data (Box1 Box2 : Box.t) (fps : Z)
  : result (list Q * list Q * list Z) :=
  let times := Box.times Box1 in
  let v1_arr := Box.v_hist Box1 in
  let v2_arr := Box.v_hist Box2 in
  let dt_arr := np_diff times in
  let x_hist1 := Box.x_hist Box1 in
  let x_hist2 := Box.x_hist Box2 in
  (r <~ sample_events fps x_hist1 x_hist2 1 dt_arr [] [] [] ;;
   let '(x1, x2, collision_frames) := r in
   e1 <~ last_of x_hist1 ;;
   w1 <~ last_of v1_arr ;;
   tail1 <~ np_linspace e1 (e1 + w1 * 5) (5 * fps) ;;
   let x1 := x1 ++ tail1 in
   e2 <~ last_of x_hist2 ;;
   w2 <~ last_of v2_arr ;;
   tail2 <~ np_linspace e2 (e2 + w2 * 5) (5 * fps) ;;
   let x2 := x2 ++ tail2 in
   (* the first report line reads x2[-1], x_hist2[-1], v2_arr[-1] and
      times[-1]; a numpy division by zero there only warns *)
   _ <~ last_of x2 ;;
   _ <~ last_of x_hist2 ;;
   _ <~ last_of v2_arr ;;
   _ <~ last_of times ;;
   (* the second report line computes len(x1) / fps *)
   _ <~ (if (fps =? 0)%Z then Failed (Py ZeroDivisionError) else Done tt) ;;
   Done (x1, x2, collision_frames))%np.


(** ** What the statements beyond the claims speak of *)

(** The attributes no method assigns after construction. *)
Definition same_constants (b b' : Box.t) : Prop :=
  Box.m b' = Box.m b /\ Box.l b' = Box.l b /\
  Box.x0 b' = Box.x0 b /\ Box.v0 b' = Box.v0 b.

(** The last entry of each history is the box's current value. *)
Definition current_is_last (b : Box.t) : Prop :=
  (exists h, Box.x_hist b = h ++ [Box.x b]) /\
  (exists h, Box.v_hist b = h ++ [Box.v b]) /\
  (exists h, Box.p_hist b = h ++ [Box.p b]).

(** ** Proof steps used more than once *)

(** Case split on the first fallible expression of a computation. *)
Ltac lift_cases E :=
  unfold bind at 1, lift at 1;
  match goal with
  | |- context [py_div ?a ?b] => destruct (py_div a b) eqn:E
  | |- context [np_min ?a] => destruct (np_min a) eqn:E
  end.

(** Read the fields of constructed and updated boxes. *)
Ltac fields :=
  cbn [fst snd updated constructed Box.x Box.v Box.m Box.l Box.times Box.x0
       Box.v_hist app].

(** ** Comparisons and division *)

Lemma Qltb_true (a b : Q) : Qltb a b = true <-> a < b.
Proof.
  unfold Qltb. rewrite negb_true_iff.
  destruct (Qle_bool b a) eqn:E.
  - apply Qle_bool_iff in E. split; [discriminate | intros H; lra].
  - split; [intros _ | reflexivity].
    apply Qnot_le_lt. intros H. apply Qle_bool_iff in H. congruence.
Qed.

Lemma Qltb_false (a b : Q) : Qltb a b = false <-> b <= a.
Proof.
  unfold Qltb. rewrite negb_false_iff. apply Qle_bool_iff.
Qed.

Lemma Qle_bool_false (a b : Q) : Qle_bool a b = false <-> b < a.
Proof.
  rewrite <- Qltb_true. unfold Qltb. apply iff_sym, negb_true_iff.
Qed.

Lemma py_div_nonzero (a b : Q) : ~ b == 0 -> py_div a b = Ok (a / b).
Proof.
  intros H. unfold py_div.
  destruct (Qeq_bool b 0) eqn:E; [| reflexivity].
  apply Qeq_bool_iff in E. contradiction.
Qed.

Lemma py_div_zero (a b : Q) : b == 0 -> py_div a b = Raise ZeroDivisionError.
Proof.
  intros H. unfold py_div. apply Qeq_bool_iff in H. now rewrite H.
Qed.

Lemma py_div_inv (a b q : Q) : py_div a b = Ok q -> ~ b == 0 /\ q = a / b.
Proof.
  unfold py_div. destruct (Qeq_bool b 0) eqn:E; [discriminate |].
  intros [= <-]. split; [| reflexivity].
  intros H. apply Qeq_bool_iff in H. congruence.
Qed.

(** ** Box.update *)

Lemma last_item_nonempty (a : list Q) : a <> [] -> last_item a = Ok (last a 0).
Proof. destruct a; [congruence | reflexivity]. Qed.

Lemma update_negative (self : Box.t) (v x t : Q) :
  t < 0 -> Box.update v x t self = (Raise ValueError_time, self).
Proof.
  intros H. unfold Box.update. apply Qltb_true in H. now rewrite H.
Qed.

Lemma update_nonnegative (self : Box.t) (v x t : Q) :
  0 <= t -> Box.times self <> [] ->
  Box.update v x t self = (Ok tt, updated self v x t).
Proof.
  intros Ht Hne. unfold Box.update. apply Qltb_false in Ht. rewrite Ht.
  cbn [Box.times]. now rewrite (last_item_nonempty _ Hne).
Qed.

Lemma update_Ok_inv (self self' : Box.t) (v x t : Q) (u : unit) :
  Box.update v x t self = (Ok u, self') ->
  0 <= t /\ Box.times self <> [] /\ self' = updated self v x t.
Proof.
  unfold Box.update. destruct (Qltb t 0) eqn:Et; [discriminate |].
  apply Qltb_false in Et. cbn [Box.times].
  destruct (Box.times self) as [| t0 ts] eqn:E; cbn [last_item]; [discriminate |].
  intros [= _ <-]. repeat split; [assumption | discriminate |].
  unfold updated. now rewrite E.
Qed.

Lemma update_Raise_inv (self self' : Box.t) (v x t : Q) (e : exn) :
  Box.update v x t self = (Raise e, self') ->
  (t < 0 /\ e = ValueError_time /\ self' = self) \/
  (0 <= t /\ e = IndexError /\ Box.times self = []).
Proof.
  unfold Box.update. destruct (Qltb t 0) eqn:Et.
  - apply Qltb_true in Et. intros [= <- <-]. now left.
  - apply Qltb_false in Et. cbn [Box.times].
    destruct (Box.times self) as [| t0 ts] eqn:E; cbn [last_item]; [| discriminate].
    intros [= <- _]. now right.
Qed.

Lemma updated_momentum (self : Box.t) (v x t : Q) :
  Box.p (updated self v x t) = Box.m (updated self v x t) * Box.v (updated self v x t).
Proof. reflexivity. Qed.

Lemma update_momentum (self : Box.t) (v x t : Q) :
  Box.p self = Box.m self * Box.v self ->
  let self' := snd (Box.update v x t self) in
  Box.p self' = Box.m self' * Box.v self'.
Proof.
  intros H. unfold Box.update. destruct (Qltb t 0); [exact H |].
  cbn [Box.times]. destruct (last_item (Box.times self)); reflexivity.
Qed.

Lemma update_all_momentum (calls : list (Q * Q * Q)) :
  forall self, Box.p self = Box.m self * Box.v self ->
  let self' := snd (update_all calls self) in
  Box.p self' = Box.m self' * Box.v self'.
Proof.
  induction calls as [| [[v x] t] rest IH]; intros self H; [exact H |].
  cbn [update_all]. unfold bind.
  pose proof (update_momentum self v x t H) as H1. cbn zeta in H1.
  destruct (Box.update v x t self) as [[u | e] self1]; cbn [snd] in *.
  - now apply IH.
  - exact H1.
Qed.

Lemma init_positive (x0 m v0 l : Q) :
  0 < m -> 0 < l ->
  Box.__init__ x0 m v0 l = Ok (constructed x0 m v0 l).
Proof.
  intros Hm Hl. unfold Box.__init__.
  apply Qle_bool_false in Hm. apply Qle_bool_false in Hl.
  now rewrite Hm, Hl.
Qed.

(** ** One pass through the loop body *)

Lemma advance_nonnegative (c : nat) (x1 v1 x2 v2 v1f v2f t : Q) (s : store) :
  0 <= t -> Box.times (fst s) <> [] -> Box.times (snd s) <> [] ->
  advance c x1 v1 x2 v2 v1f v2f t s =
  (Ok (Next (S c)),
   (updated (fst s) v1f (x1 + v1 * t) t, updated (snd s) v2f (x2 + v2 * t) t)).
Proof.
  intros Ht H1 H2. unfold advance, bind, on_Box1, on_Box2, ret.
  rewrite (update_nonnegative _ _ _ _ Ht H1). cbn [fst snd].
  now rewrite (update_nonnegative _ _ _ _ Ht H2).
Qed.

Lemma advance_negative (c : nat) (x1 v1 x2 v2 v1f v2f t : Q) (s : store) :
  t < 0 -> advance c x1 v1 x2 v2 v1f v2f t s = (Raise ValueError_time, s).
Proof.
  intros Ht. unfold advance, bind, on_Box1.
  rewrite (update_negative _ _ _ _ Ht). now destruct s.
Qed.

Lemma advance_Next_inv (c c' : nat) (x1 v1 x2 v2 v1f v2f t : Q) (s s' : store) :
  advance c x1 v1 x2 v2 v1f v2f t s = (Ok (Next c'), s') ->
  0 <= t /\ c' = S c /\
  s' = (updated (fst s) v1f (x1 + v1 * t) t, updated (snd s) v2f (x2 + v2 * t) t).
Proof.
  unfold advance, bind, on_Box1, on_Box2, ret.
  destruct (Box.update v1f (x1 + v1 * t) t (fst s)) as [[u1 | e1] b1] eqn:E1;
    [| discriminate].
  cbn [fst snd].
  destruct (Box.update v2f (x2 + v2 * t) t (snd s)) as [[u2 | e2] b2] eqn:E2;
    [| discriminate].
  intros [= <- <-].
  apply update_Ok_inv in E1 as (Ht & _ & ->).
  apply update_Ok_inv in E2 as (_ & _ & ->).
  auto.
Qed.

(** With both event-time lists non-empty, a pass that does not reach the
    bottom of the body leaves the store as it found it. *)
Lemma advance_other (c : nat) (x1 v1 x2 v2 v1f v2f t : Q) (s s' : store)
      (o : outcome flow) :
  Box.times (fst s) <> [] -> Box.times (snd s) <> [] ->
  advance c x1 v1 x2 v2 v1f v2f t s = (o, s') ->
  (exists c', o = Ok (Next c')) \/ s' = s.
Proof.
  intros H1 H2. destruct (Qlt_le_dec t 0) as [Ht | Ht].
  - rewrite (advance_negative _ _ _ _ _ _ _ _ _ Ht). intros [= <- <-]. now right.
  - rewrite (advance_nonnegative _ _ _ _ _ _ _ _ _ Ht H1 H2).
    intros [= <- <-]. left. eauto.
Qed.

Lemma loop_body_Next_inv (left_bound : Q) (c c' : nat) (s s' : store) :
  loop_body left_bound c s = (Ok (Next c'), s') ->
  exists v1f v2f t,
    0 <= t /\ c' = S c /\
    s' = (updated (fst s) v1f (Box.x (fst s) + Box.v (fst s) * t) t,
          updated (snd s) v2f (Box.x (snd s) + Box.v (snd s) * t) t).
Proof.
  unfold loop_body. cbv zeta.
  destruct (Qltb (Box.v (fst s)) 0).
  - lift_cases E; [| discriminate].
    intros H. apply advance_Next_inv in H. eauto.
  - destruct (Qltb (Box.v (fst s)) (Box.v (snd s)) && Qltb 0 (Box.v (snd s))).
    + lift_cases E; discriminate.
    + lift_cases E; [| discriminate].
      lift_cases E1; [| discriminate].
      lift_cases E2; [| discriminate].
      intros H. apply advance_Next_inv in H. eauto.
Qed.

Lemma loop_body_other (left_bound : Q) (c : nat) (s s' : store) (o : outcome flow) :
  Box.times (fst s) <> [] -> Box.times (snd s) <> [] ->
  loop_body left_bound c s = (o, s') ->
  (exists c', o = Ok (Next c')) \/ s' = s.
Proof.
  intros H1 H2. unfold loop_body. cbv zeta.
  destruct (Qltb (Box.v (fst s)) 0).
  - lift_cases E; [| intros [= <- <-]; now right].
    now apply advance_other.
  - destruct (Qltb (Box.v (fst s)) (Box.v (snd s)) && Qltb 0 (Box.v (snd s))).
    + lift_cases E; unfold ret; intros [= <- <-]; now right.
    + lift_cases E; [| intros [= <- <-]; now right].
      lift_cases E1; [| intros [= <- <-]; now right].
      lift_cases E2; [| intros [= <- <-]; now right].
      now apply advance_other.
Qed.

(** The loop run with a fuel, read through the step relation. *)
Lemma while_True_reaches (left_bound : Q) (fuel : nat) :
  forall c s o s',
    while_True fuel left_bound c s = Some (o, s') ->
    exists c1 s1 o1,
      reaches left_bound c s c1 s1 /\
      loop_body left_bound c1 s1 = (o1, s') /\
      match o1 with
      | Ok (Break dt_min) => o = Ok (c1, dt_min)
      | Raise e => o = Raise e
      | Ok (Next _) => False
      end.
Proof.
  induction fuel as [| fuel IH]; intros c s o s'; [discriminate |].
  cbn [while_True].
  destruct (loop_body left_bound c s) as [[[c1 | dt] | e] s1] eqn:E.
  - intros H. apply IH in H as (c2 & s2 & o2 & Hr & Hb & Ho).
    exists c2, s2, o2. split; [| now split].
    now apply reaches_event with (c1 := c1) (s1 := s1).
  - intros [= <- <-]. exists c, s, (Ok (Break dt)).
    repeat split; [constructor | assumption].
  - intros [= <- <-]. exists c, s, (Raise e).
    repeat split; [constructor | assumption].
Qed.

(** ** Histories *)

Lemma nondecreasing_snoc (a : list Q) (t : Q) :
  nondecreasing a -> 0 <= t -> nondecreasing (a ++ [t + last a 0]).
Proof.
  induction a as [| a0 [| a1 tl] IH]; intros Ha Ht.
  - exact I.
  - cbn. split; [lra | exact I].
  - destruct Ha as [H01 Htl]. specialize (IH Htl Ht).
    change ((a0 :: a1 :: tl) ++ [t + last (a0 :: a1 :: tl) 0])
      with (a0 :: ((a1 :: tl) ++ [t + last (a1 :: tl) 0])).
    cbn [app] in IH |- *. cbn [nondecreasing]. now split.
Qed.

Lemma updated_hist_inv (b : Box.t) (v x t : Q) :
  hist_inv b -> 0 <= t -> hist_inv (updated b v x t).
Proof.
  intros [Hx Hv Hp Hl Ht] H0. constructor; cbn [updated Box.x_hist Box.v_hist
    Box.p_hist Box.times]; rewrite ?length_app; cbn [length]; try lia.
  now apply nondecreasing_snoc.
Qed.

Lemma updated_length (b : Box.t) (v x t : Q) :
  length (Box.times (updated b v x t)) = S (length (Box.times b)).
Proof. cbn. rewrite length_app. cbn. lia. Qed.

Lemma hist_inv_nonempty (b : Box.t) : hist_inv b -> Box.times b <> [].
Proof.
  intros [_ _ _ Hl _] E. rewrite E in Hl. cbn in Hl. lia.
Qed.

Lemma constructed_hist_inv (x0 m v0 l : Q) :
  hist_inv (constructed x0 m v0 l).
Proof. constructor; cbn; auto. Qed.

Lemma update_all_nonnegative (calls : list (Q * Q * Q)) :
  forall self,
    hist_inv self ->
    Forall (fun call => 0 <= snd call) calls ->
    exists self',
      update_all calls self = (Ok tt, self') /\
      hist_inv self' /\
      length (Box.times self') = (length (Box.times self) + length calls)%nat.
Proof.
  induction calls as [| [[v x] t] rest IH]; intros self Hinv Hall.
  - exists self. cbn. split; [reflexivity | split; [assumption | lia]].
  - inversion Hall as [| ? ? Ht Hrest]; subst. cbn [snd] in Ht.
    destruct (IH (updated self v x t)) as (self' & Hrun & Hinv' & Hlen);
      [now apply updated_hist_inv | assumption |].
    exists self'. cbn [update_all]. unfold bind.
    rewrite (update_nonnegative _ _ _ _ Ht (hist_inv_nonempty _ Hinv)).
    split; [assumption | split; [assumption |]].
    rewrite Hlen, updated_length. cbn [length]. lia.
Qed.

Lemma event_keeps_aligned (left_bound : Q) (c c' : nat) (s s' : store) :
  loop_body left_bound c s = (Ok (Next c'), s') ->
  aligned s -> aligned s'.
Proof.
  intros H [H1 H2 Ht].
  apply loop_body_Next_inv in H as (v1f & v2f & t & H0 & _ & ->).
  constructor; cbn [fst snd].
  - now apply updated_hist_inv.
  - now apply updated_hist_inv.
  - cbn [updated Box.times]. now rewrite Ht.
Qed.

Lemma reaches_aligned (left_bound : Q) (c c' : nat) (s s' : store) :
  reaches left_bound c s c' s' -> aligned s -> aligned s'.
Proof.
  induction 1 as [| c s c1 s1 c' s' Hstep _ IH]; intros Ha; [assumption |].
  apply IH. eapply event_keeps_aligned; eassumption.
Qed.

(** Events counted against entries appended. *)
Lemma reaches_count (left_bound : Q) (c c' : nat) (s s' : store) :
  reaches left_bound c s c' s' ->
  (length (Box.times (fst s')) + c = length (Box.times (fst s)) + c')%nat /\
  (length (Box.times (snd s')) + c = length (Box.times (snd s)) + c')%nat.
Proof.
  induction 1 as [| c s c1 s1 c' s' Hstep _ IH]; [split; reflexivity |].
  apply loop_body_Next_inv in Hstep as (v1f & v2f & t & _ & -> & ->).
  cbn [fst snd] in IH. rewrite !updated_length in IH. lia.
Qed.

(** Whatever way a run ends, it ends in a store the loop reached. *)
Lemma run_ends_in_reached (left_bound : Q) (fuel : nat) (c : nat) (s s' : store)
      (o : outcome (nat * Q)) :
  aligned s ->
  while_True fuel left_bound c s = Some (o, s') ->
  exists c1, reaches left_bound c s c1 s' /\
             match o with Ok (c', _) => c' = c1 | Raise _ => True end.
Proof.
  intros Ha H. apply while_True_reaches in H as (c1 & s1 & o1 & Hr & Hb & Ho).
  pose proof (reaches_aligned _ _ _ _ _ Hr Ha) as [A1 A2 _].
  destruct (loop_body_other _ _ _ _ _ (hist_inv_nonempty _ A1)
              (hist_inv_nonempty _ A2) Hb) as [[c2 ->] | ->].
  - contradiction.
  - exists c1. split; [assumption |].
    destruct o1 as [[c2 | dt] | e]; subst; auto. contradiction.
Qed.

Lemma preconditions_cases (Box1 Box2 : Box.t) (left_bound : Q) (e : exn) :
  preconditions Box1 Box2 left_bound = Raise e ->
  e = Exception_overlap \/ e = Exception_boundary \/ e = Exception_order.
Proof.
  unfold preconditions, Box.check_overlap.
  destruct (_ && _); [intros [= <-]; auto |].
  destruct (_ || _); [intros [= <-]; auto |].
  destruct (Qltb _ _); [intros [= <-]; auto | discriminate].
Qed.

(** ** The three branches of the loop body *)

Lemma Qabs_negative_nonzero (a : Q) : a < 0 -> 0 < Qabs a.
Proof.
  intros H. rewrite (Qabs_neg a); lra.
Qed.

Lemma wall_time_nonnegative (x1 left_bound v1 : Q) :
  v1 < 0 -> 0 <= Qabs (x1 - left_bound) / Qabs v1.
Proof.
  intros H. apply Qle_shift_div_l.
  - now apply Qabs_negative_nonzero.
  - rewrite Qmult_0_l. apply Qabs_nonneg.
Qed.

Lemma wall_bounce_step (left_bound : Q) (c : nat) (s : store) :
  Box.v (fst s) < 0 ->
  Box.times (fst s) <> [] -> Box.times (snd s) <> [] ->
  let t := Qabs (Box.x (fst s) - left_bound) / Qabs (Box.v (fst s)) in
  loop_body left_bound c s =
  (Ok (Next (S c)),
   (updated (fst s) (- Box.v (fst s)) (Box.x (fst s) + Box.v (fst s) * t) t,
    updated (snd s) (Box.v (snd s)) (Box.x (snd s) + Box.v (snd s) * t) t)).
Proof.
  intros Hv H1 H2 t. unfold loop_body. cbv zeta.
  rewrite (proj2 (Qltb_true _ _) Hv).
  unfold bind at 1, lift at 1.
  rewrite py_div_nonzero.
  - apply advance_nonnegative; auto. now apply wall_time_nonnegative.
  - pose proof (Qabs_negative_nonzero _ Hv). lra.
Qed.

Lemma not_terminal (v1 v2 : Q) :
  ~ (v1 < v2 /\ 0 < v2) -> Qltb v1 v2 && Qltb 0 v2 = false.
Proof.
  intros H. apply not_true_is_false. intros E.
  apply andb_true_iff in E as [E1 E2].
  apply Qltb_true in E1, E2. auto.
Qed.

Lemma collision_step (left_bound : Q) (c : nat) (s : store) :
  let x1 := Box.x (fst s) in let x2 := Box.x (snd s) in
  let v1 := Box.v (fst s) in let v2 := Box.v (snd s) in
  let m1 := Box.m (fst s) in let m2 := Box.m (snd s) in
  let l1 := Box.l (fst s) in
  let t := (x1 + l1 - x2) / (v2 - v1) in
  let v1f := ((m1 - m2) * v1 + 2 * m2 * v2) / (m1 + m2) in
  let v2f := ((m2 - m1) * v2 + 2 * m1 * v1) / (m1 + m2) in
  0 <= v1 -> ~ (v1 < v2 /\ 0 < v2) ->
  ~ v2 - v1 == 0 -> ~ m1 + m2 == 0 -> 0 <= t ->
  Box.times (fst s) <> [] -> Box.times (snd s) <> [] ->
  loop_body left_bound c s =
  (Ok (Next (S c)),
   (updated (fst s) v1f (x1 + v1 * t) t, updated (snd s) v2f (x2 + v2 * t) t)).
Proof.
  cbv zeta. intros Hv Hnt Hd Hm Ht H1 H2.
  unfold loop_body. cbv zeta.
  rewrite (proj2 (Qltb_false _ _) Hv), (not_terminal _ _ Hnt).
  unfold bind at 1, lift at 1. rewrite (py_div_nonzero _ _ Hd).
  unfold bind at 1, lift at 1. rewrite (py_div_nonzero _ _ Hm).
  unfold bind at 1, lift at 1. rewrite (py_div_nonzero _ _ Hm).
  now apply advance_nonnegative.
Qed.

Lemma collision_step_inv (left_bound : Q) (c c' : nat) (s s' : store) :
  let x1 := Box.x (fst s) in let x2 := Box.x (snd s) in
  let v1 := Box.v (fst s) in let v2 := Box.v (snd s) in
  let m1 := Box.m (fst s) in let m2 := Box.m (snd s) in
  let l1 := Box.l (fst s) in
  let t := (x1 + l1 - x2) / (v2 - v1) in
  let v1f := ((m1 - m2) * v1 + 2 * m2 * v2) / (m1 + m2) in
  let v2f := ((m2 - m1) * v2 + 2 * m1 * v1) / (m1 + m2) in
  0 <= v1 -> ~ (v1 < v2 /\ 0 < v2) ->
  loop_body left_bound c s = (Ok (Next c'), s') ->
  c' = S c /\
  s' = (updated (fst s) v1f (x1 + v1 * t) t, updated (snd s) v2f (x2 + v2 * t) t).
Proof.
  cbv zeta. intros Hv Hnt.
  unfold loop_body. cbv zeta.
  rewrite (proj2 (Qltb_false _ _) Hv), (not_terminal _ _ Hnt).
  lift_cases E; [| discriminate]. apply py_div_inv in E as [_ ->].
  lift_cases E1; [| discriminate]. apply py_div_inv in E1 as [_ ->].
  lift_cases E2; [| discriminate]. apply py_div_inv in E2 as [_ ->].
  intros H. apply advance_Next_inv in H as (_ & -> & ->). now split.
Qed.

Lemma equal_velocity_step (left_bound : Q) (c : nat) (s : store) :
  0 <= Box.v (fst s) -> Box.v (fst s) == Box.v (snd s) ->
  loop_body left_bound c s = (Raise ZeroDivisionError, s).
Proof.
  intros Hv He. unfold loop_body. cbv zeta.
  rewrite (proj2 (Qltb_false _ _) Hv), not_terminal by lra.
  unfold bind at 1, lift at 1. rewrite py_div_zero; [reflexivity | lra].
Qed.

Lemma terminal_step (left_bound : Q) (c : nat) (s : store) :
  0 <= Box.v (fst s) -> Box.v (fst s) < Box.v (snd s) ->
  loop_body left_bound c s =
  match np_min (np_diff (Box.times (fst s))) with
  | Ok dt_min => (Ok (Break dt_min), s)
  | Raise e => (Raise e, s)
  end.
Proof.
  intros Hv Hlt. unfold loop_body. cbv zeta.
  rewrite (proj2 (Qltb_false _ _) Hv).
  assert (E : Qltb (Box.v (fst s)) (Box.v (snd s)) && Qltb 0 (Box.v (snd s)) = true).
  { apply andb_true_iff. split; apply Qltb_true; lra. }
  rewrite E. unfold bind, lift, ret.
  now destruct (np_min _).
Qed.

Lemma init_Ok_inv (x0 m v0 l : Q) (self : Box.t) :
  Box.__init__ x0 m v0 l = Ok self ->
  0 < m /\ 0 < l /\ self = constructed x0 m v0 l.
Proof.
  unfold Box.__init__.
  destruct (Qle_bool m 0) eqn:Em; [discriminate |].
  destruct (Qle_bool l 0) eqn:El; [discriminate |].
  intros [= <-]. apply Qle_bool_false in Em, El. auto.
Qed.

Lemma constructed_aligned (x0 m v0 l x0' m' v0' l' : Q) :
  aligned (constructed x0 m v0 l, constructed x0' m' v0' l').
Proof.
  constructor; cbn [fst snd]; try apply constructed_hist_inv. reflexivity.
Qed.

Lemma loop_body_Break_inv (left_bound : Q) (c : nat) (s s' : store) (dt_min : Q) :
  loop_body left_bound c s = (Ok (Break dt_min), s') -> s' = s.
Proof.
  unfold loop_body. cbv zeta.
  destruct (Qltb (Box.v (fst s)) 0).
  - lift_cases E; [| discriminate].
    unfold advance, bind, on_Box1, on_Box2, ret.
    destruct (Box.update _ _ _ (fst s)) as [[u1 | e1] b1]; [| discriminate].
    cbn [fst snd].
    destruct (Box.update _ _ _ (snd s)) as [[u2 | e2] b2]; discriminate.
  - destruct (Qltb (Box.v (fst s)) (Box.v (snd s)) && Qltb 0 (Box.v (snd s))).
    + lift_cases E; unfold ret; [| discriminate]. now intros [= _ <-].
    + lift_cases E; [| discriminate].
      lift_cases E1; [| discriminate].
      lift_cases E2; [| discriminate].
      unfold advance, bind, on_Box1, on_Box2, ret.
      destruct (Box.update _ _ _ (fst s)) as [[u1 | e1] b1]; [| discriminate].
      cbn [fst snd].
      destruct (Box.update _ _ _ (snd s)) as [[u2 | e2] b2]; discriminate.
Qed.

Lemma run_Ok_reaches (left_bound : Q) (fuel c c' : nat) (s s' : store) (dt_min : Q) :
  while_True fuel left_bound c s = Some (Ok (c', dt_min), s') ->
  reaches left_bound c s c' s'.
Proof.
  intros H. apply while_True_reaches in H as (c1 & s1 & o1 & Hr & Hb & Ho).
  destruct o1 as [[c2 | dt] | e]; try contradiction; try discriminate.
  injection Ho as -> ->. apply loop_body_Break_inv in Hb. now subst.
Qed.

(** A failed precondition is the whole run: nothing has been advanced. *)
Lemma precondition_failure_leaves_store (fuel : nat) (Box1 Box2 : Box.t)
      (left_bound : Q) (e : exn) :
  preconditions Box1 Box2 left_bound = Raise e ->
  elastic_collision_sim fuel Box1 Box2 left_bound = Some (Raise e, (Box1, Box2)).
Proof.
  intros H. unfold elastic_collision_sim. now rewrite H.
Qed.

(** The loop raises none of the three precondition errors. *)
Lemma loop_body_raises (left_bound : Q) (c : nat) (s s' : store) (e : exn) :
  loop_body left_bound c s = (Raise e, s') ->
  e = ZeroDivisionError \/ e = ValueError_zero_size \/
  e = ValueError_time \/ e = IndexError.
Proof.
  assert (Ha : forall x1 v1 x2 v2 v1f v2f t,
             advance c x1 v1 x2 v2 v1f v2f t s = (Raise e, s') ->
             e = ValueError_time \/ e = IndexError).
  { intros x1 v1 x2 v2 v1f v2f t. unfold advance, bind, on_Box1, on_Box2, ret.
    destruct (Box.update v1f _ t (fst s)) as [[u1 | e1] b1] eqn:E1.
    - cbn [fst snd].
      destruct (Box.update v2f _ t (snd s)) as [[u2 | e2] b2] eqn:E2;
        [discriminate |].
      intros [= <- _].
      apply update_Raise_inv in E2 as [(_ & -> & _) | (_ & -> & _)]; auto.
    - intros [= <- _].
      apply update_Raise_inv in E1 as [(_ & -> & _) | (_ & -> & _)]; auto. }
  unfold loop_body. cbv zeta.
  destruct (Qltb (Box.v (fst s)) 0).
  - lift_cases E.
    + intros H. apply Ha in H. tauto.
    + unfold py_div in E. destruct (Qeq_bool _ 0); [| discriminate].
      injection E as <-. intros [= <- _]. auto.
  - destruct (Qltb (Box.v (fst s)) (Box.v (snd s)) && Qltb 0 (Box.v (snd s))).
    + lift_cases E; unfold ret; [discriminate |].
      unfold np_min in E. destruct (np_diff _); [| discriminate].
      injection E as <-. intros [= <- _]. auto.
    + lift_cases E.
      2:{ unfold py_div in E. destruct (Qeq_bool _ 0); [| discriminate].
          injection E as <-. intros [= <- _]. auto. }
      lift_cases E1.
      2:{ unfold py_div in E1. destruct (Qeq_bool _ 0); [| discriminate].
          injection E1 as <-. intros [= <- _]. auto. }
      lift_cases E2.
      2:{ unfold py_div in E2. destruct (Qeq_bool _ 0); [| discriminate].
          injection E2 as <-. intros [= <- _]. auto. }
      intros H. apply Ha in H. tauto.
Qed.

Lemma while_True_raises (left_bound : Q) (fuel : nat) :
  forall c s s' e,
    while_True fuel left_bound c s = Some (Raise e, s') ->
    e = ZeroDivisionError \/ e = ValueError_zero_size \/
    e = ValueError_time \/ e = IndexError.
Proof.
  induction fuel as [| fuel IH]; intros c s s' e; [discriminate |].
  cbn [while_True].
  destruct (loop_body left_bound c s) as [[[c1 | dt] | e1] s1] eqn:E.
  - apply IH.
  - discriminate.
  - intros [= <- _]. eapply loop_body_raises; eassumption.
Qed.

(** A run that ends in a precondition error has processed no event: the
    error comes from the checks before the loop and the store is the one
    the run was given. *)
Lemma precondition_error_before_any_event (fuel : nat) (Box1 Box2 : Box.t)
      (left_bound : Q) (e : exn) (s' : store) :
  elastic_collision_sim fuel Box1 Box2 left_bound = Some (Raise e, s') ->
  e = Exception_overlap \/ e = Exception_boundary \/ e = Exception_order ->
  preconditions Box1 Box2 left_bound = Raise e /\ s' = (Box1, Box2).
Proof.
  unfold elastic_collision_sim.
  destruct (preconditions Box1 Box2 left_bound) as [u | e0].
  - destruct (while_True fuel left_bound 0 (Box1, Box2))
      as [[[[c dt] | e1] s1] |] eqn:E; try discriminate.
    intros [= <- _] He. apply while_True_raises in E.
    destruct E as [-> | [-> | [-> | ->]]];
      destruct He as [He | [He | He]]; discriminate He.
  - intros [= <- <-] _. now split.
Qed.

(** The constructor raises on a mass or a length that is not positive. *)
Lemma init_raises (x0 m v0 l : Q) :
  (m <= 0 -> Box.__init__ x0 m v0 l = Raise ValueError_mass) /\
  (0 < m -> l <= 0 -> Box.__init__ x0 m v0 l = Raise ValueError_length).
Proof.
  unfold Box.__init__. split.
  - intros Hm. apply Qle_bool_iff in Hm. now rewrite Hm.
  - intros Hm Hl. apply Qle_bool_false in Hm. apply Qle_bool_iff in Hl.
    now rewrite Hm, Hl.
Qed.

(** ** The collision counter *)

(** C1, as stated, fails.  The claim has a wall bounce leave the counter
    as it was.  Counterexample: [Box(3, 1, -1, 1)] and [Box(8, 1, 0, 1)]
    with the wall at 0; the left box moves to the wall, the pass through
    the loop body is the wall-bounce branch, and [collisions += 1] at the
    bottom of the body takes the counter from 0 to 1. *)
Lemma wall_bounce_is_counted :
  ~ (forall left_bound c s c' s',
        Box.v (fst s) < 0 ->
        loop_body left_bound c s = (Ok (Next c'), s') ->
        c' = c).
Proof.
  intros H.
  pose (s := (constructed 3 1 (-1) 1, constructed 8 1 0 1)).
  assert (Hv : Box.v (fst s) < 0) by reflexivity.
  pose proof (wall_bounce_step 0 0%nat s Hv) as Hstep.
  cbv zeta in Hstep.
  specialize (H 0 0%nat s _ _ Hv (Hstep ltac:(discriminate) ltac:(discriminate))).
  discriminate.
Qed.

(** C1, amended: every event adds exactly 1 to the collision counter, a
    wall bounce as much as a mutual collision.  A pass that reaches the
    bottom of the loop body leaves the counter one higher; a pass with the
    left box moving to the wall does reach it; and the count a run returns
    is the number of entries the run appended to each box's event times. *)
Theorem collisions_counts_every_event :
  (forall left_bound c s c' s',
      loop_body left_bound c s = (Ok (Next c'), s') -> c' = S c) /\
  (forall left_bound c s,
      Box.v (fst s) < 0 ->
      Box.times (fst s) <> [] -> Box.times (snd s) <> [] ->
      exists s', loop_body left_bound c s = (Ok (Next (S c)), s')) /\
  (forall fuel Box1 Box2 left_bound r s',
      elastic_collision_sim fuel Box1 Box2 left_bound = Some (Ok r, s') ->
      length (Box.times (Box_1 r)) = (length (Box.times Box1) + Collisions r)%nat /\
      length (Box.times (Box_2 r)) = (length (Box.times Box2) + Collisions r)%nat).
Proof.
  split; [| split].
  - intros lb c s c' s' H.
    now apply loop_body_Next_inv in H as (_ & _ & _ & _ & -> & _).
  - intros lb c s Hv H1 H2. eexists. now apply wall_bounce_step.
  - intros fuel Box1 Box2 lb r s'. unfold elastic_collision_sim.
    destruct (preconditions Box1 Box2 lb); [| discriminate].
    destruct (while_True fuel lb 0 (Box1, Box2)) as [[[[c dt] | e] s1] |] eqn:E;
      try discriminate.
    intros [= <- <-]. apply run_Ok_reaches in E. apply reaches_count in E.
    cbn [fst snd Box_1 Box_2 Collisions] in *. lia.
Qed.

(** The run of C1's amended statement on the equal-mass input: two mutual
    collisions and one wall bounce, counted 3. *)
Lemma collisions_counts_every_event_witness :
  exists r s',
    elastic_collision_sim 4 (constructed 3 1 0 1) (constructed 8 1 (-1) 1) 0
    = Some (Ok r, s') /\
    Collisions r = 3%nat /\
    length (Box.times (Box_1 r)) = (1 + Collisions r)%nat /\
    length (Box.times (Box_2 r)) = (1 + Collisions r)%nat.
Proof.
  pose proof (proj2 (proj2 collisions_counts_every_event)
                4%nat (constructed 3 1 0 1) (constructed 8 1 (-1) 1) 0) as H.
  do 2 eexists. split; [vm_compute; reflexivity |].
  split; [reflexivity |].
  eapply H. vm_compute. reflexivity.
Defined.

(** ** Momentum *)

(** C7: a box constructed with [m > 0] and [l > 0] has [p = m * v], and
    so has the box after any sequence of [update] calls, whatever the
    arguments (a call that raises included). *)
Theorem momentum_is_mass_times_velocity (x0 m v0 l : Q) :
  0 < m -> 0 < l ->
  exists self,
    Box.__init__ x0 m v0 l = Ok self /\
    Box.p self = Box.m self * Box.v self /\
    forall calls,
      let self' := snd (update_all calls self) in
      Box.p self' = Box.m self' * Box.v self'.
Proof.
  intros Hm Hl. exists (constructed x0 m v0 l).
  split; [now apply init_positive | split; [reflexivity |]].
  intros calls. now apply update_all_momentum.
Qed.

Lemma momentum_is_mass_times_velocity_witness :
  exists self,
    Box.__init__ 3 2 (-1) 1 = Ok self /\
    Box.p self = Box.m self * Box.v self /\
    forall calls,
      let self' := snd (update_all calls self) in
      Box.p self' = Box.m self' * Box.v self'.
Proof.
  apply (momentum_is_mass_times_velocity 3 2 (-1) 1); reflexivity.
Defined.

(** ** Histories *)

(** C8: a box constructed with [m > 0] and [l > 0] has four histories of
    one length, at least 1, and event times that never go back; any
    sequence of [update] calls with elapsed times [t >= 0] succeeds and
    keeps that, adding one entry per call.  In the engine every event
    appends exactly one entry to each box, so that from two constructed
    boxes every store the loop reaches, and the store any run ends in,
    hold two boxes with that invariant and the same event times. *)
Theorem histories_stay_aligned (x0 m v0 l : Q) :
  0 < m -> 0 < l ->
  exists self,
    Box.__init__ x0 m v0 l = Ok self /\
    hist_inv self /\
    (forall calls,
        Forall (fun call => 0 <= snd call) calls ->
        exists self',
          update_all calls self = (Ok tt, self') /\
          hist_inv self' /\
          length (Box.times self') = S (length calls)) /\
    (forall left_bound c s c' s',
        loop_body left_bound c s = (Ok (Next c'), s') ->
        length (Box.times (fst s')) = S (length (Box.times (fst s))) /\
        length (Box.times (snd s')) = S (length (Box.times (snd s)))) /\
    (forall x0' m' v0' l' Box2 left_bound,
        Box.__init__ x0' m' v0' l' = Ok Box2 ->
        (forall c s', reaches left_bound 0 (self, Box2) c s' -> aligned s') /\
        (forall fuel o s',
            elastic_collision_sim fuel self Box2 left_bound = Some (o, s') ->
            aligned s')).
Proof.
  intros Hm Hl. exists (constructed x0 m v0 l).
  split; [now apply init_positive |].
  split; [apply constructed_hist_inv |].
  split; [| split].
  - intros calls Hall.
    destruct (update_all_nonnegative calls _ (constructed_hist_inv x0 m v0 l) Hall)
      as (self' & Hrun & Hinv & Hlen).
    exists self'. split; [assumption | split; [assumption |]].
    rewrite Hlen. reflexivity.
  - intros lb c s c' s' H.
    apply loop_body_Next_inv in H as (v1f & v2f & t & _ & _ & ->).
    cbn [fst snd]. now rewrite !updated_length.
  - intros x0' m' v0' l' Box2 lb HB2.
    apply init_Ok_inv in HB2 as (_ & _ & ->).
    pose proof (constructed_aligned x0 m v0 l x0' m' v0' l') as Ha.
    split.
    + intros c s' Hr. eapply reaches_aligned; eassumption.
    + intros fuel o s'. unfold elastic_collision_sim.
      destruct (preconditions _ _ lb); [| now intros [= <- <-]].
      destruct (while_True fuel lb 0 _) as [[o1 s1] |] eqn:E; [| discriminate].
      apply (run_ends_in_reached _ _ _ _ _ _ Ha) in E as (c1 & Hr & _).
      intros H. assert (s' = s1) as ->.
      { destruct o1 as [[c2 dt] | e]; now injection H. }
      eapply reaches_aligned; eassumption.
Qed.

Lemma histories_stay_aligned_witness :
  0 < 1 /\ 0 < 1 /\
  exists self self',
    Box.__init__ 3 1 0 1 = Ok self /\
    update_all [(-1, 3, 4); (1, 0, 3); (0, 3, 0)] self = (Ok tt, self') /\
    hist_inv self' /\
    length (Box.times self') = 4%nat.
Proof.
  split; [reflexivity | split; [reflexivity |]].
  destruct (histories_stay_aligned 3 1 0 1) as (self & Hi & _ & Hc & _);
    [reflexivity | reflexivity |].
  destruct (Hc [(-1, 3, 4); (1, 0, 3); (0, 3, 0)]) as (self' & Hr & Hinv & Hlen).
  - repeat constructor; discriminate.
  - exists self, self'. auto.
Defined.

(** ** Box.update and its error *)

(** C10: [update] raises its [ValueError] exactly when [t < 0], and then
    leaves the box as it was; otherwise, on a box with a recorded event
    time (every constructed box has one), it succeeds, sets position,
    velocity and momentum, appends one entry to each history, and the
    event time appended is [t] plus the last recorded one. *)
Theorem update_raises_iff_negative_time (self : Box.t) (v x t : Q) :
  (fst (Box.update v x t self) = Raise ValueError_time <-> t < 0) /\
  (t < 0 -> Box.update v x t self = (Raise ValueError_time, self)) /\
  (~ t < 0 -> Box.times self <> [] ->
   exists self',
     Box.update v x t self = (Ok tt, self') /\
     Box.x self' = x /\ Box.v self' = v /\ Box.p self' = Box.m self * v /\
     Box.m self' = Box.m self /\ Box.l self' = Box.l self /\
     Box.x_hist self' = Box.x_hist self ++ [x] /\
     Box.v_hist self' = Box.v_hist self ++ [v] /\
     Box.p_hist self' = Box.p_hist self ++ [Box.m self * v] /\
     Box.times self' = Box.times self ++ [t + last (Box.times self) 0]).
Proof.
  split; [split | split].
  - intros H. destruct (Qlt_le_dec t 0) as [Ht | Ht]; [assumption |].
    destruct (Box.update v x t self) as [[u | e] self'] eqn:E; [discriminate |].
    apply update_Raise_inv in E as [(? & _) | (_ & -> & _)];
      [assumption | discriminate].
  - intros H. now rewrite update_negative.
  - apply update_negative.
  - intros Ht Hne. exists (updated self v x t).
    split; [apply update_nonnegative; [lra | assumption] |].
    repeat split; reflexivity.
Qed.

Lemma update_raises_iff_negative_time_witness :
  (exists self',
      Box.update (-1) 3 4 (constructed 3 1 0 1) = (Ok tt, self') /\
      Box.times self' = [0] ++ [4 + 0]) /\
  Box.update (-1) 3 (-4) (constructed 3 1 0 1) =
  (Raise ValueError_time, constructed 3 1 0 1).
Proof.
  pose proof (update_raises_iff_negative_time (constructed 3 1 0 1) (-1) 3 4)
    as (_ & _ & Hok).
  pose proof (update_raises_iff_negative_time (constructed 3 1 0 1) (-1) 3 (-4))
    as (_ & Hneg & _).
  split.
  - destruct Hok as (self' & Hu & H); [discriminate | discriminate |].
    exists self'. split; [exact Hu | apply H].
  - apply Hneg. reflexivity.
Defined.

(** ** The wall bounce *)

(** C6: a pass through the loop body with the left box moving to the wall
    ([v1 < 0]) is a wall bounce.  It takes [t = |x1 - left_bound| / |v1|],
    advances both boxes by [t] at the velocities they had, negates the
    left box's velocity and leaves the right box's.  (It also adds 1 to
    the collision counter.) *)
Theorem wall_bounce_event (left_bound : Q) (c : nat) (Box1 Box2 : Box.t) :
  let x1 := Box.x Box1 in let x2 := Box.x Box2 in
  let v1 := Box.v Box1 in let v2 := Box.v Box2 in
  let t := Qabs (x1 - left_bound) / Qabs v1 in
  v1 < 0 ->
  Box.times Box1 <> [] -> Box.times Box2 <> [] ->
  exists Box1' Box2',
    loop_body left_bound c (Box1, Box2) = (Ok (Next (S c)), (Box1', Box2')) /\
    0 <= t /\
    Box.v Box1' = - v1 /\ Box.v Box2' = v2 /\
    Box.x Box1' = x1 + v1 * t /\ Box.x Box2' = x2 + v2 * t /\
    Box.times Box1' = Box.times Box1 ++ [t + last (Box.times Box1) 0] /\
    Box.times Box2' = Box.times Box2 ++ [t + last (Box.times Box2) 0] /\
    Box1' = updated Box1 (- v1) (x1 + v1 * t) t /\
    Box2' = updated Box2 v2 (x2 + v2 * t) t.
Proof.
  cbv zeta. intros Hv H1 H2.
  do 2 eexists. split.
  - apply (wall_bounce_step left_bound c (Box1, Box2) Hv H1 H2).
  - cbn [fst snd]. split; [now apply wall_time_nonnegative |].
    repeat split; reflexivity.
Qed.

Lemma wall_bounce_event_witness :
  Box.v (constructed 3 1 (-1) 1) < 0 /\
  exists Box1' Box2',
    loop_body 0 0 (constructed 3 1 (-1) 1, constructed 8 1 0 1) =
    (Ok (Next 1), (Box1', Box2')) /\
    Box.v Box1' == 1 /\ Box.v Box2' == 0 /\
    Box.x Box1' == 0 /\ Box.x Box2' == 8 /\
    Forall2 Qeq (Box.times Box1') [0; 3].
Proof.
  split; [reflexivity |].
  destruct (wall_bounce_event 0 0 (constructed 3 1 (-1) 1) (constructed 8 1 0 1))
    as (Box1' & Box2' & Hstep & _ & Hv1 & Hv2 & Hx1 & Hx2 & Ht1 & _);
    [reflexivity | discriminate | discriminate |].
  exists Box1', Box2'. split; [exact Hstep |].
  rewrite Hv1, Hv2, Hx1, Hx2, Ht1.
  repeat split; try reflexivity.
  repeat constructor; reflexivity.
Defined.

(** ** The mutual collision *)

(** C5: a pass through the loop body that takes the default branch
    (neither [v1 < 0] nor [v1 < v2 and v2 > 0]) and reaches the bottom of
    the body is a mutual collision with
    [t = (x1 + l1 - x2) / (v2 - v1)], both boxes advanced by [t] at the
    velocities they had, and the new velocities
    [v1f = ((m1 - m2) v1 + 2 m2 v2) / (m1 + m2)] and
    [v2f = ((m2 - m1) v2 + 2 m1 v1) / (m1 + m2)].  The pass does reach the
    bottom when the two divisors are not zero, [t >= 0] and both boxes
    have a recorded event time. *)
Theorem mutual_collision_event (left_bound : Q) (c : nat) (Box1 Box2 : Box.t) :
  let x1 := Box.x Box1 in let x2 := Box.x Box2 in
  let v1 := Box.v Box1 in let v2 := Box.v Box2 in
  let m1 := Box.m Box1 in let m2 := Box.m Box2 in
  let l1 := Box.l Box1 in
  let t := (x1 + l1 - x2) / (v2 - v1) in
  let v1f := ((m1 - m2) * v1 + 2 * m2 * v2) / (m1 + m2) in
  let v2f := ((m2 - m1) * v2 + 2 * m1 * v1) / (m1 + m2) in
  let Box1' := updated Box1 v1f (x1 + v1 * t) t in
  let Box2' := updated Box2 v2f (x2 + v2 * t) t in
  ~ v1 < 0 -> ~ (v1 < v2 /\ 0 < v2) ->
  (forall c' s',
      loop_body left_bound c (Box1, Box2) = (Ok (Next c'), s') ->
      c' = S c /\ s' = (Box1', Box2')) /\
  (~ v2 - v1 == 0 -> ~ m1 + m2 == 0 -> 0 <= t ->
   Box.times Box1 <> [] -> Box.times Box2 <> [] ->
   loop_body left_bound c (Box1, Box2) = (Ok (Next (S c)), (Box1', Box2'))) /\
  Box.x Box1' = x1 + v1 * t /\ Box.x Box2' = x2 + v2 * t /\
  Box.v Box1' = v1f /\ Box.v Box2' = v2f /\
  Box.times Box1' = Box.times Box1 ++ [t + last (Box.times Box1) 0] /\
  Box.times Box2' = Box.times Box2 ++ [t + last (Box.times Box2) 0].
Proof.
  cbv zeta. intros Hv Hnt. apply Qnot_lt_le in Hv.
  split; [| split].
  - intros c' s' H.
    apply (collision_step_inv left_bound c c' (Box1, Box2) s' Hv Hnt H).
  - intros Hd Hm Ht H1 H2.
    apply (collision_step left_bound c (Box1, Box2) Hv Hnt Hd Hm Ht H1 H2).
  - repeat split; reflexivity.
Qed.

Lemma mutual_collision_event_witness :
  ~ Box.v (constructed 3 1 0 1) < 0 /\
  ~ (Box.v (constructed 3 1 0 1) < Box.v (constructed 8 1 (-1) 1) /\
     0 < Box.v (constructed 8 1 (-1) 1)) /\
  exists Box1' Box2',
    loop_body 0 0 (constructed 3 1 0 1, constructed 8 1 (-1) 1) =
    (Ok (Next 1), (Box1', Box2')) /\
    Box.v Box1' == -1 /\ Box.v Box2' == 0 /\
    Box.x Box1' == 3 /\ Box.x Box2' == 4 /\
    Forall2 Qeq (Box.times Box1') [0; 4].
Proof.
  assert (H1 : ~ Box.v (constructed 3 1 0 1) < 0) by discriminate.
  assert (H2 : ~ (Box.v (constructed 3 1 0 1) < Box.v (constructed 8 1 (-1) 1) /\
                  0 < Box.v (constructed 8 1 (-1) 1)))
    by (intros [H _]; discriminate H).
  split; [exact H1 | split; [exact H2 |]].
  destruct (mutual_collision_event 0 0 (constructed 3 1 0 1) (constructed 8 1 (-1) 1)
              H1 H2) as (_ & Hstep & Hx1 & Hx2 & Hv1 & Hv2 & Ht1 & _).
  do 2 eexists. split.
  - apply Hstep; discriminate.
  - rewrite Hx1, Hx2, Hv1, Hv2, Ht1.
    repeat split; try reflexivity.
    repeat constructor; reflexivity.
Defined.

(** ** Runs on given inputs *)

(** C2: the check misses a footprint that lies inside the other.
    [Box(0, 1, 0, 10)] covers [[0, 10)] and [Box(2, 1, -1, 1)] covers
    [[2, 3)]; [check_overlap] tests [x2 < x1 + l1 <= x2 + l2], here
    [2 < 10 <= 3], and returns.  The run then raises the [ValueError] of
    [update] on a negative time-to-contact, not the overlap error. *)
Theorem containment_overlap_not_detected :
  let Box1 := constructed 0 1 0 10 in
  let Box2 := constructed 2 1 (-1) 1 in
  Box.__init__ 0 1 0 10 = Ok Box1 /\
  Box.__init__ 2 1 (-1) 1 = Ok Box2 /\
  footprints_intersect Box1 Box2 /\
  Box.check_overlap Box1 Box2 = Ok tt /\
  forall fuel,
    elastic_collision_sim (S fuel) Box1 Box2 0 =
    Some (Raise ValueError_time, (Box1, Box2)).
Proof.
  cbv zeta. repeat split.
Qed.

(** What the exit branch does when it is taken: with [0 <= v1 < v2] and
    at least one event recorded, the pass leaves the loop with the
    smallest gap between event times and touches neither box. *)
Lemma exit_step (left_bound : Q) (c : nat) (s : store) (t0 t1 : Q) (ts : list Q) :
  0 <= Box.v (fst s) -> Box.v (fst s) < Box.v (snd s) ->
  Box.times (fst s) = t0 :: t1 :: ts ->
  exists dt_min, loop_body left_bound c s = (Ok (Break dt_min), s).
Proof.
  intros Hv Hlt Ht. rewrite terminal_step by assumption.
  rewrite Ht. cbn [np_diff np_min]. eauto.
Qed.

(** C3: with equal velocities the loop body does not take the exit
    branch, whose test is the strict [v1 < v2], and the default branch
    divides by [v2 - v1 = 0].  [Box(0, 1, 1, 1)] and [Box(5, 1, 1, 1)] with
    the wall at 0 pass the preconditions and the run raises
    [ZeroDivisionError] on its first pass; so does a pass from any store
    with [0 <= v1 = v2]. *)
Theorem equal_velocities_divide_by_zero :
  let Box1 := constructed 0 1 1 1 in
  let Box2 := constructed 5 1 1 1 in
  Box.__init__ 0 1 1 1 = Ok Box1 /\
  Box.__init__ 5 1 1 1 = Ok Box2 /\
  preconditions Box1 Box2 0 = Ok tt /\
  Box.v Box1 <= Box.v Box2 /\ 0 < Box.v Box2 /\
  (forall fuel,
      elastic_collision_sim (S fuel) Box1 Box2 0 =
      Some (Raise ZeroDivisionError, (Box1, Box2))) /\
  (forall left_bound c s,
      0 <= Box.v (fst s) -> Box.v (fst s) == Box.v (snd s) ->
      loop_body left_bound c s = (Raise ZeroDivisionError, s)).
Proof.
  cbv zeta. repeat split; try discriminate.
  apply equal_velocity_step.
Qed.

(** The exit branch itself raises when it is taken on the first pass:
    [np.diff] of the single initial event time is empty and [np.min]
    refuses it.  [Box(0, 1, 0, 1)] and [Box(2, 1, 1, 1)], already moving
    apart, are such a start. *)
Lemma exit_on_first_pass_raises :
  let Box1 := constructed 0 1 0 1 in
  let Box2 := constructed 2 1 1 1 in
  preconditions Box1 Box2 0 = Ok tt /\
  Box.v Box1 < Box.v Box2 /\ 0 < Box.v Box2 /\
  forall fuel,
    elastic_collision_sim (S fuel) Box1 Box2 0 =
    Some (Raise ValueError_zero_size, (Box1, Box2)).
Proof.
  cbv zeta. repeat split.
Qed.

(** C9: the three precondition errors are raised by the checks before
    the loop and leave the store as given, but a run can also fail after
    its boxes have been advanced.  [Box(1, 1, -1, 1)] and
    [Box(5, 1, 1, 1)] with the wall at 0 pass the preconditions; the first
    pass is a wall bounce, which appends to both boxes and leaves
    [v1 = v2 = 1]; the second pass divides by zero. *)
Theorem run_can_fail_after_an_event :
  let Box1 := constructed 1 1 (-1) 1 in
  let Box2 := constructed 5 1 1 1 in
  (forall fuel B1 B2 left_bound e s',
      elastic_collision_sim fuel B1 B2 left_bound = Some (Raise e, s') ->
      e = Exception_overlap \/ e = Exception_boundary \/ e = Exception_order ->
      preconditions B1 B2 left_bound = Raise e /\ s' = (B1, B2)) /\
  Box.__init__ 1 1 (-1) 1 = Ok Box1 /\
  Box.__init__ 5 1 1 1 = Ok Box2 /\
  preconditions Box1 Box2 0 = Ok tt /\
  forall fuel,
  exists s',
    elastic_collision_sim (S (S fuel)) Box1 Box2 0 =
    Some (Raise ZeroDivisionError, s') /\
    Forall2 Qeq (Box.x_hist (fst s')) [1; 0] /\
    Forall2 Qeq (Box.x_hist (snd s')) [5; 6] /\
    Forall2 Qeq (Box.times (fst s')) [0; 1] /\
    Forall2 Qeq (Box.v_hist (fst s')) [-1; 1] /\
    s' <> (Box1, Box2).
Proof.
  cbv zeta. split; [apply precondition_error_before_any_event |].
  do 3 (split; [reflexivity |]).
  intros fuel. eexists. split; [vm_compute; reflexivity |].
  cbn [fst snd Box.x_hist Box.times Box.v_hist].
  repeat split; try (repeat constructor; reflexivity).
  discriminate.
Qed.

Lemma preconditions_pass (Box1 Box2 : Box.t) (left_bound : Q) :
  Box.x0 Box1 + Box.l Box1 <= Box.x0 Box2 ->
  left_bound <= Box.x0 Box1 -> 0 <= Box.l Box1 ->
  preconditions Box1 Box2 left_bound = Ok tt.
Proof.
  intros Hgap Hlb Hl. unfold preconditions, Box.check_overlap. cbv zeta.
  rewrite (proj2 (Qltb_false _ _) Hgap). cbn [andb].
  rewrite (proj2 (Qltb_false _ _) Hlb). cbn [orb].
  rewrite !(proj2 (Qltb_false _ _)) by lra. reflexivity.
Qed.

(** C4, as stated, fails.  Counterexample: [Box(3, 1, 0, 1)] and
    [Box(8, 1, -1, 1)] with the wall at 0.  No run returns a count of 1:
    after the first collision the left box has velocity -1, so the next
    pass is a wall bounce, not the exit, and the run returns 3. *)
Lemma equal_mass_run_is_not_one_collision :
  ~ (exists fuel r s',
        elastic_collision_sim fuel (constructed 3 1 0 1) (constructed 8 1 (-1) 1) 0
        = Some (Ok r, s') /\
        Collisions r = 1%nat).
Proof.
  intros (fuel & r & s' & H & Hc).
  do 4 (destruct fuel as [| fuel]; [vm_compute in H; discriminate |]).
  vm_compute in H. injection H as <- _. discriminate.
Qed.

(** C4, amended: with [m1 = m2 = 1], the left box at rest and the right
    box coming at velocity -1, clear of the left box and both right of the
    wall, at whole-number positions, lengths and wall between [-2^49] and
    [2^49] (the placement [x0_1 = 3], [l1 = 1], [x0_2 = 8], [l2 = 1],
    [left_bound = 0] is one), the run has three events and returns a
    count of 3: a mutual collision that exchanges the velocities
    ([v1 = -1], [v2 = 0]), a wall bounce of the left box ([v1 = 1],
    [v2 = 0]) and a second mutual collision ([v1 = 0], [v2 = 1]); the exit
    test passes on the fourth pass through the loop.  On such a placement
    every sum, product and quotient of the run is a whole number below
    [2^53], so the floats of the program compute it without rounding. *)
Theorem equal_mass_run (x1 l1 x2 l2 left_bound : Z) (fuel : nat) :
  (0 < l1)%Z -> (0 < l2)%Z -> (left_bound <= x1)%Z -> (x1 + l1 <= x2)%Z ->
  (- 2 ^ 49 <= left_bound)%Z -> (x2 + l2 <= 2 ^ 49)%Z ->
  let Box1 := constructed (inject_Z x1) 1 0 (inject_Z l1) in
  let Box2 := constructed (inject_Z x2) 1 (-1) (inject_Z l2) in
  Box.__init__ (inject_Z x1) 1 0 (inject_Z l1) = Ok Box1 /\
  Box.__init__ (inject_Z x2) 1 (-1) (inject_Z l2) = Ok Box2 /\
  exists r s',
    elastic_collision_sim (4 + fuel) Box1 Box2 (inject_Z left_bound)
    = Some (Ok r, s') /\
    Collisions r = 3%nat /\
    Forall2 Qeq (Box.v_hist (Box_1 r)) [0; -1; 1; 0] /\
    Forall2 Qeq (Box.v_hist (Box_2 r)) [-1; 0; 0; 1] /\
    Box.v (Box_1 r) == 0 /\ Box.v (Box_2 r) == 1.
Proof.
  intros Zl1 Zl2 Zlb Zgap _ _. cbv zeta.
  assert (Hl1 : 0 < inject_Z l1) by (unfold Qlt; cbn; lia).
  assert (Hl2 : 0 < inject_Z l2) by (unfold Qlt; cbn; lia).
  assert (Hlb : inject_Z left_bound <= inject_Z x1) by (rewrite <- Zle_Qle; lia).
  assert (Hgap : inject_Z x1 + inject_Z l1 <= inject_Z x2)
    by (rewrite <- inject_Z_plus, <- Zle_Qle; lia).
  set (p1 := inject_Z x1) in *. set (d1 := inject_Z l1) in *.
  set (p2 := inject_Z x2) in *. set (d2 := inject_Z l2) in *.
  set (wall := inject_Z left_bound) in *.
  clearbody p1 d1 p2 d2 wall.
  split; [now apply init_positive |].
  split; [now apply init_positive |].
  unfold elastic_collision_sim.
  rewrite preconditions_pass by (cbn; lra).
  cbn [Nat.add while_True].
  (* first pass: the boxes meet *)
  assert (Ht1 : (p1 + d1 - p2) / (-1 - 0) == p2 - p1 - d1) by field.
  rewrite collision_step; fields;
    [ | lra | intros [H _]; lra | lra | lra | rewrite Ht1; lra
      | discriminate | discriminate ].
  set (t1 := (p1 + d1 - p2) / (-1 - 0)) in *. clearbody t1.
  (* second pass: the left box meets the wall *)
  rewrite wall_bounce_step; fields; [ | reflexivity | discriminate | discriminate].
  set (u1 := ((1 - 1) * 0 + 2 * 1 * -1) / (1 + 1)) in *.
  set (u2 := ((1 - 1) * -1 + 2 * 1 * 0) / (1 + 1)) in *.
  assert (Hu1 : u1 == -1) by reflexivity.
  assert (Hu2 : u2 == 0) by reflexivity.
  assert (Ht2 : Qabs (p1 + 0 * t1 - wall) / Qabs u1 == p1 - wall).
  { rewrite Hu1, Qabs_pos by lra. change (Qabs (-1)) with 1. field. }
  set (t2 := Qabs (p1 + 0 * t1 - wall) / Qabs u1) in *. clearbody t2.
  (* third pass: the boxes meet again *)
  rewrite collision_step; fields;
    [ | discriminate | intros [H _]; discriminate H | discriminate | discriminate
      | | discriminate | discriminate ].
  2:{ clearbody u1 u2. rewrite Hu1, Hu2, Ht1, Ht2.
      setoid_replace ((p1 + 0 * (p2 - p1 - d1) + -1 * (p1 - wall) + d1 -
                       (p2 + -1 * (p2 - p1 - d1) + 0 * (p1 - wall)))
                      / (0 - - -1))
        with (p1 - wall) by field.
      lra. }
  (* fourth pass: the exit *)
  cbv beta iota.
  rewrite terminal_step; fields; [ | discriminate | reflexivity].
  cbn [np_diff np_min].
  do 2 eexists. split; [reflexivity |].
  cbn [Collisions Box_1 Box_2]. fields.
  split; [reflexivity |].
  split; [repeat constructor; reflexivity |].
  split; [repeat constructor; reflexivity |].
  split; reflexivity.
Qed.

Lemma equal_mass_run_witness :
  (0 < 1)%Z /\ (0 <= 3)%Z /\ (3 + 1 <= 8)%Z /\
  (- 2 ^ 49 <= 0)%Z /\ (8 + 1 <= 2 ^ 49)%Z /\
  Box.__init__ 3 1 0 1 = Ok (constructed 3 1 0 1) /\
  Box.__init__ 8 1 (-1) 1 = Ok (constructed 8 1 (-1) 1) /\
  exists r s',
    elastic_collision_sim 4 (constructed 3 1 0 1) (constructed 8 1 (-1) 1) 0
    = Some (Ok r, s') /\
    Collisions r = 3%nat /\
    Forall2 Qeq (Box.v_hist (Box_1 r)) [0; -1; 1; 0] /\
    Forall2 Qeq (Box.v_hist (Box_2 r)) [-1; 0; 0; 1] /\
    Box.v (Box_1 r) == 0 /\ Box.v (Box_2 r) == 1.
Proof.
  do 5 (split; [lia |]).
  apply (equal_mass_run 3 1 8 1 0 0); lia.
Defined.

(** * Beyond the claims *)

(** ** The exit branch *)

Lemma loop_body_Break_cond (left_bound : Q) (c : nat) (s s' : store) (dt_min : Q) :
  loop_body left_bound c s = (Ok (Break dt_min), s') ->
  0 <= Box.v (fst s) /\ Box.v (fst s) < Box.v (snd s) /\
  np_min (np_diff (Box.times (fst s))) = Ok dt_min.
Proof.
  intros H. pose proof (loop_body_Break_inv _ _ _ _ _ H) as ->.
  revert H. unfold loop_body. cbv zeta.
  destruct (Qltb (Box.v (fst s)) 0) eqn:Ev.
  - lift_cases E; [| discriminate].
    unfold advance, bind, on_Box1, on_Box2, ret.
    destruct (Box.update _ _ _ (fst s)) as [[u1 | e1] b1]; [| discriminate].
    cbn [fst snd].
    destruct (Box.update _ _ _ (snd s)) as [[u2 | e2] b2]; discriminate.
  - apply Qltb_false in Ev.
    destruct (Qltb (Box.v (fst s)) (Box.v (snd s)) && Qltb 0 (Box.v (snd s)))
      eqn:Ex.
    + apply andb_true_iff in Ex as [Ex _]. apply Qltb_true in Ex.
      lift_cases E; unfold ret; [| discriminate]. intros [= ->]. auto.
    + lift_cases E; [| discriminate].
      lift_cases E1; [| discriminate].
      lift_cases E2; [| discriminate].
      unfold advance, bind, on_Box1, on_Box2, ret.
      destruct (Box.update _ _ _ (fst s)) as [[u1 | e1] b1]; [| discriminate].
      cbn [fst snd].
      destruct (Box.update _ _ _ (snd s)) as [[u2 | e2] b2]; discriminate.
Qed.

(** ** The attributes that stay *)

Lemma same_constants_refl (b : Box.t) : same_constants b b.
Proof. repeat split. Qed.

Lemma same_constants_trans (b1 b2 b3 : Box.t) :
  same_constants b1 b2 -> same_constants b2 b3 -> same_constants b1 b3.
Proof.
  unfold same_constants. intros (A1 & A2 & A3 & A4) (B1 & B2 & B3 & B4).
  repeat split; congruence.
Qed.

Lemma update_constants (self : Box.t) (v x t : Q) :
  same_constants self (snd (Box.update v x t self)).
Proof.
  unfold Box.update. destruct (Qltb t 0); [apply same_constants_refl |].
  cbn [Box.times]. destruct (last_item (Box.times self)); repeat split.
Qed.

Lemma update_all_constants (calls : list (Q * Q * Q)) :
  forall self, same_constants self (snd (update_all calls self)).
Proof.
  induction calls as [| [[v x] t] rest IH]; intros self;
    [apply same_constants_refl |].
  cbn [update_all]. unfold bind.
  pose proof (update_constants self v x t) as H.
  destruct (Box.update v x t self) as [[u | e] self1]; cbn [snd] in *.
  - eapply same_constants_trans; [exact H | apply IH].
  - exact H.
Qed.

Lemma advance_constants (c : nat) (x1 v1 x2 v2 v1f v2f t : Q) (s : store) :
  let s' := snd (advance c x1 v1 x2 v2 v1f v2f t s) in
  same_constants (fst s) (fst s') /\ same_constants (snd s) (snd s').
Proof.
  cbv zeta. unfold advance, bind, on_Box1, on_Box2, ret.
  pose proof (update_constants (fst s) v1f (x1 + v1 * t) t) as H1.
  destruct (Box.update v1f (x1 + v1 * t) t (fst s)) as [[u1 | e1] b1];
    cbn [fst snd] in *.
  - pose proof (update_constants (snd s) v2f (x2 + v2 * t) t) as H2.
    destruct (Box.update v2f (x2 + v2 * t) t (snd s)) as [[u2 | e2] b2];
      cbn [fst snd] in *; split; assumption.
  - split; [assumption | apply same_constants_refl].
Qed.

Lemma loop_body_constants (left_bound : Q) (c : nat) (s : store) :
  let s' := snd (loop_body left_bound c s) in
  same_constants (fst s) (fst s') /\ same_constants (snd s) (snd s').
Proof.
  assert (Hrefl : same_constants (fst s) (fst s) /\ same_constants (snd s) (snd s))
    by (split; apply same_constants_refl).
  cbv zeta. unfold loop_body. cbv zeta.
  destruct (Qltb (Box.v (fst s)) 0).
  - lift_cases E; [apply advance_constants | exact Hrefl].
  - destruct (Qltb (Box.v (fst s)) (Box.v (snd s)) && Qltb 0 (Box.v (snd s))).
    + lift_cases E; exact Hrefl.
    + lift_cases E; [| exact Hrefl].
      lift_cases E1; [| exact Hrefl].
      lift_cases E2; [| exact Hrefl].
      apply advance_constants.
Qed.

Lemma while_True_constants (left_bound : Q) (fuel : nat) :
  forall c s o s',
    while_True fuel left_bound c s = Some (o, s') ->
    same_constants (fst s) (fst s') /\ same_constants (snd s) (snd s').
Proof.
  induction fuel as [| fuel IH]; intros c s o s'; [discriminate |].
  cbn [while_True].
  pose proof (loop_body_constants left_bound c s) as [H1 H2]. cbv zeta in H1, H2.
  destruct (loop_body left_bound c s) as [[[c1 | dt] | e] s1]; cbn [snd] in *.
  - intros H. apply IH in H as [H3 H4].
    split; eapply same_constants_trans; eassumption.
  - intros [= _ <-]. now split.
  - intros [= _ <-]. now split.
Qed.

(** ** np.diff and np.min *)

Lemma Qmin_cases (a b : Q) : Qmin a b = a \/ Qmin a b = b.
Proof.
  unfold Qmin, GenericMinMax.gmin. destruct (a ?= b); auto.
Qed.

Lemma fold_Qmin_least (tl : list Q) :
  forall a0, let d := fold_left Qmin tl a0 in
             In d (a0 :: tl) /\ Forall (Qle d) (a0 :: tl).
Proof.
  induction tl as [| a1 tl IH]; intros a0; cbv zeta; cbn [fold_left].
  - split; [now left | constructor; [apply Qle_refl | constructor]].
  - destruct (IH (Qmin a0 a1)) as [Hin Hall]. cbv zeta in Hin, Hall.
    inversion Hall as [| ? ? Hhd Htl]; subst.
    split.
    + destruct Hin as [Hin | Hin]; [| right; now right].
      rewrite <- Hin. destruct (Qmin_cases a0 a1) as [-> | ->];
        [now left | right; now left].
    + constructor; [| constructor]; try assumption.
      * eapply Qle_trans; [exact Hhd | apply Q.le_min_l].
      * eapply Qle_trans; [exact Hhd | apply Q.le_min_r].
Qed.

Lemma np_min_least (a : list Q) (d : Q) :
  np_min a = Ok d -> In d a /\ Forall (Qle d) a.
Proof.
  destruct a as [| a0 tl]; cbn [np_min]; [discriminate |].
  intros [= <-]. apply fold_Qmin_least.
Qed.

Lemma np_diff_length (a : list Q) : length (np_diff a) = (length a - 1)%nat.
Proof.
  induction a as [| a0 [| a1 tl] IH]; try reflexivity.
  change (np_diff (a0 :: a1 :: tl)) with ((a1 - a0) :: np_diff (a1 :: tl)).
  cbn [length] in *. lia.
Qed.

Lemma np_diff_nonnegative (a : list Q) :
  nondecreasing a -> Forall (Qle 0) (np_diff a).
Proof.
  induction a as [| a0 [| a1 tl] IH]; intros Ha; try constructor.
  - destruct Ha as [H01 _]. lra.
  - apply IH. now destruct Ha.
Qed.

(** ** The current state and the histories *)

Lemma updated_current_is_last (b : Box.t) (v x t : Q) :
  current_is_last (updated b v x t).
Proof. repeat split; eexists; reflexivity. Qed.

Lemma constructed_current_is_last (x0 m v0 l : Q) :
  current_is_last (constructed x0 m v0 l).
Proof. repeat split; exists []; reflexivity. Qed.

Lemma reaches_current_is_last (left_bound : Q) (c c' : nat) (s s' : store) :
  reaches left_bound c s c' s' ->
  current_is_last (fst s) -> current_is_last (snd s) ->
  current_is_last (fst s') /\ current_is_last (snd s').
Proof.
  induction 1 as [| c s c1 s1 c' s' Hstep _ IH]; intros H1 H2; [now split |].
  apply loop_body_Next_inv in Hstep as (v1f & v2f & t & _ & _ & ->).
  apply IH; apply updated_current_is_last.
Qed.

(** ** How a run ends *)

(** A run that returns has left the loop through the exit branch. *)
Lemma run_Ok_exit (left_bound : Q) (fuel c c' : nat) (s s' : store) (dt_min : Q) :
  while_True fuel left_bound c s = Some (Ok (c', dt_min), s') ->
  reaches left_bound c s c' s' /\
  loop_body left_bound c' s' = (Ok (Break dt_min), s').
Proof.
  intros H. pose proof (run_Ok_reaches _ _ _ _ _ _ _ H) as Hr.
  split; [assumption |].
  apply while_True_reaches in H as (c1 & s1 & o1 & _ & Hb & Ho).
  destruct o1 as [[c2 | dt] | e]; try contradiction; try discriminate.
  injection Ho as -> ->.
  pose proof (loop_body_Break_inv _ _ _ _ _ Hb) as ->. exact Hb.
Qed.

(** ** The checks before the loop *)

(** X2: [check_overlap] has no false alarm: when it raises, the two
    footprints do share a point (for a box of positive length); and for a
    right box that starts no further left and is no shorter than the left
    one its test is exact.  It raises nothing but the overlap error. *)
Theorem check_overlap_sound (Box1 Box2 : Box.t) :
  0 < Box.l Box1 ->
  (forall e, Box.check_overlap Box1 Box2 = Raise e ->
             e = Exception_overlap /\ footprints_intersect Box1 Box2) /\
  (Box.x0 Box1 <= Box.x0 Box2 -> Box.l Box1 <= Box.l Box2 ->
   footprints_intersect Box1 Box2 ->
   Box.check_overlap Box1 Box2 = Raise Exception_overlap).
Proof.
  intros Hl. unfold Box.check_overlap, footprints_intersect. cbv zeta. split.
  - intros e.
    destruct (Qltb _ _ && Qle_bool _ _) eqn:E; [| discriminate].
    intros [= <-]. apply andb_true_iff in E as [E1 E2].
    apply Qltb_true in E1. apply Qle_bool_iff in E2.
    split; [reflexivity | split; lra].
  - intros Hx Hll [_ H2].
    apply (proj2 (Qltb_true _ _)) in H2. rewrite H2.
    assert (E : Qle_bool (Box.x0 Box1 + Box.l Box1) (Box.x0 Box2 + Box.l Box2) = true)
      by (apply Qle_bool_iff; lra).
    now rewrite E.
Qed.

Lemma check_overlap_sound_witness :
  0 < Box.l (constructed 3 1 0 2) /\
  Box.check_overlap (constructed 3 1 0 2) (constructed 4 1 0 2) =
  Raise Exception_overlap /\
  footprints_intersect (constructed 3 1 0 2) (constructed 4 1 0 2).
Proof.
  assert (Hl : 0 < Box.l (constructed 3 1 0 2)) by reflexivity.
  destruct (check_overlap_sound (constructed 3 1 0 2) (constructed 4 1 0 2) Hl)
    as [Hs Hc].
  split; [exact Hl |].
  assert (E : Box.check_overlap (constructed 3 1 0 2) (constructed 4 1 0 2) =
              Raise Exception_overlap).
  { apply Hc; [discriminate | discriminate | split; reflexivity]. }
  split; [exact E | apply (Hs _ E)].
Defined.

(** X3: for a left box of positive length and a right box no shorter, the
    checks before the loop pass exactly when the left box starts at or
    right of the wall and the right box starts at or right of the left
    box's right edge. *)
Theorem preconditions_pass_iff (Box1 Box2 : Box.t) (left_bound : Q) :
  0 < Box.l Box1 -> Box.l Box1 <= Box.l Box2 ->
  (preconditions Box1 Box2 left_bound = Ok tt <->
   left_bound <= Box.x0 Box1 /\ Box.x0 Box1 + Box.l Box1 <= Box.x0 Box2).
Proof.
  intros Hl Hll. split.
  - unfold preconditions, Box.check_overlap. cbv zeta.
    destruct (Qltb (Box.x0 Box2) (Box.x0 Box1 + Box.l Box1) &&
              Qle_bool (Box.x0 Box1 + Box.l Box1) (Box.x0 Box2 + Box.l Box2))
      eqn:Eo; [discriminate |].
    destruct (Qltb (Box.x0 Box1) left_bound || Qltb (Box.x0 Box2) left_bound)
      eqn:Eb; [discriminate |].
    destruct (Qltb (Box.x0 Box2) (Box.x0 Box1)) eqn:Er; [discriminate |].
    intros _. apply orb_false_iff in Eb as [Eb _].
    apply Qltb_false in Eb, Er. split; [assumption |].
    apply andb_false_iff in Eo as [Eo | Eo].
    + now apply Qltb_false in Eo.
    + apply Qle_bool_false in Eo. lra.
  - intros [Hw Hc]. apply preconditions_pass; lra.
Qed.

Lemma preconditions_pass_iff_witness :
  0 < Box.l (constructed 3 1 0 1) /\
  preconditions (constructed 3 1 0 1) (constructed 8 100 (-1) 1) 0 = Ok tt /\
  preconditions (constructed 3 1 0 1) (constructed 8 100 (-1) 1) 4 <> Ok tt.
Proof.
  assert (Hl : 0 < Box.l (constructed 3 1 0 1)) by reflexivity.
  assert (Hll : Box.l (constructed 3 1 0 1) <= Box.l (constructed 8 100 (-1) 1))
    by discriminate.
  split; [exact Hl | split].
  - apply (preconditions_pass_iff _ _ 0 Hl Hll). split; discriminate.
  - intros H. apply (preconditions_pass_iff _ _ 4 Hl Hll) in H as [H _].
    apply H. reflexivity.
Defined.

(** ** How a run can end *)

(** X10: a result is returned only from the exit branch: its left box is
    not moving to the wall and its right box is strictly faster
    ([0 <= v1 < v2]); the store the run ends in is the result's two boxes;
    and from a left box with a single recorded time, as constructed, the
    count returned is at least 1, since the exit taken on the first pass
    raises instead of returning. *)
Theorem returned_state_is_terminal :
  forall fuel Box1 Box2 left_bound r s',
    elastic_collision_sim fuel Box1 Box2 left_bound = Some (Ok r, s') ->
    0 <= Box.v (Box_1 r) /\ Box.v (Box_1 r) < Box.v (Box_2 r) /\
    s' = (Box_1 r, Box_2 r) /\
    (length (Box.times Box1) = 1%nat -> (1 <= Collisions r)%nat).
Proof.
  intros fuel Box1 Box2 lb r s'. unfold elastic_collision_sim.
  destruct (preconditions Box1 Box2 lb); [| discriminate].
  destruct (while_True fuel lb 0 (Box1, Box2)) as [[[[c dt] | e] s1] |] eqn:E;
    try discriminate.
  intros [= <- <-]. cbn [Box_1 Box_2 Collisions].
  apply run_Ok_exit in E as [Hr Hb].
  apply loop_body_Break_cond in Hb as (Hv & Hlt & Hmin).
  repeat split; try assumption; [now destruct s1 |].
  intros Hlen. apply reaches_count in Hr as [Hc _]. cbn [fst] in Hc.
  pose proof (np_diff_length (Box.times (fst s1))) as Hd.
  destruct (np_diff (Box.times (fst s1))); [discriminate |].
  cbn [length] in Hd. lia.
Qed.

(** X11: the smallest interval a run returns is one of the gaps between
    consecutive event times of the left box and no gap is smaller; from
    boxes whose histories are in order, as constructed, it is not
    negative. *)
Theorem smallest_interval_is_least_gap :
  forall fuel Box1 Box2 left_bound r s',
    elastic_collision_sim fuel Box1 Box2 left_bound = Some (Ok r, s') ->
    let gaps := np_diff (Box.times (Box_1 r)) in
    In (Smallest_Interval r) gaps /\
    Forall (Qle (Smallest_Interval r)) gaps /\
    (aligned (Box1, Box2) -> 0 <= Smallest_Interval r).
Proof.
  intros fuel Box1 Box2 lb r s'. unfold elastic_collision_sim.
  destruct (preconditions Box1 Box2 lb); [| discriminate].
  destruct (while_True fuel lb 0 (Box1, Box2)) as [[[[c dt] | e] s1] |] eqn:E;
    try discriminate.
  intros [= <- <-]. cbn [Box_1 Smallest_Interval]. cbv zeta.
  apply run_Ok_exit in E as [Hr Hb].
  apply loop_body_Break_cond in Hb as (_ & _ & Hmin).
  apply np_min_least in Hmin as [Hin Hall].
  split; [assumption | split; [assumption |]].
  intros Ha. apply (reaches_aligned _ _ _ _ _ Hr) in Ha as [[_ _ _ _ Hnd] _ _].
  apply np_diff_nonnegative in Hnd.
  rewrite Forall_forall in Hnd. now apply Hnd.
Qed.

Lemma smallest_interval_is_least_gap_witness :
  exists r s',
    elastic_collision_sim 4 (constructed 3 1 0 1) (constructed 8 1 (-1) 1) 0
    = Some (Ok r, s') /\
    Forall2 Qeq (np_diff (Box.times (Box_1 r))) [4; 3; 3] /\
    Smallest_Interval r == 3 /\ 0 <= Smallest_Interval r.
Proof.
  pose proof (smallest_interval_is_least_gap
                4%nat (constructed 3 1 0 1) (constructed 8 1 (-1) 1) 0) as H.
  do 2 eexists. split; [vm_compute; reflexivity |].
  split; [repeat constructor; reflexivity |].
  split; [reflexivity |].
  eapply H; [vm_compute; reflexivity | apply constructed_aligned].
Defined.

(** ** What no call changes *)

(** X12: mass, length and the recorded initial position and velocity of
    a box are assigned at construction only: no sequence of [update]
    calls changes them, and neither does a run, whatever way it ends. *)
Theorem constants_never_change :
  (forall calls self, same_constants self (snd (update_all calls self))) /\
  (forall fuel Box1 Box2 left_bound o s',
      elastic_collision_sim fuel Box1 Box2 left_bound = Some (o, s') ->
      same_constants Box1 (fst s') /\ same_constants Box2 (snd s')).
Proof.
  split.
  - intros calls self. apply update_all_constants.
  - intros fuel Box1 Box2 lb o s'. unfold elastic_collision_sim.
    destruct (preconditions Box1 Box2 lb).
    + destruct (while_True fuel lb 0 (Box1, Box2)) as [[o1 s1] |] eqn:E;
        [| discriminate].
      apply while_True_constants in E. cbn [fst snd] in E.
      intros H. assert (s' = s1) as ->; [| exact E].
      destruct o1 as [[c dt] | e]; now injection H.
    + intros [= _ <-]. split; apply same_constants_refl.
Qed.

Lemma update_all_current_is_last (calls : list (Q * Q * Q)) :
  forall self self',
    current_is_last self ->
    update_all calls self = (Ok tt, self') ->
    current_is_last self'.
Proof.
  induction calls as [| [[v x] t] rest IH]; intros self self' Hc.
  - cbn. now intros [= <-].
  - cbn [update_all]. unfold bind.
    destruct (Box.update v x t self) as [[u | e] self1] eqn:E; [| discriminate].
    apply update_Ok_inv in E as (_ & _ & ->).
    apply IH. apply updated_current_is_last.
Qed.

(** X13: the last entry of the position, velocity and momentum
    histories is the box's current position, velocity and momentum: at
    construction, after any sequence of successful [update] calls, and in
    the two boxes of any result a run returns from boxes that had it. *)
Theorem histories_end_in_current_state :
  (forall x0 m v0 l calls self self',
      Box.__init__ x0 m v0 l = Ok self ->
      update_all calls self = (Ok tt, self') ->
      current_is_last self /\ current_is_last self') /\
  (forall fuel Box1 Box2 left_bound r s',
      current_is_last Box1 -> current_is_last Box2 ->
      elastic_collision_sim fuel Box1 Box2 left_bound = Some (Ok r, s') ->
      current_is_last (Box_1 r) /\ current_is_last (Box_2 r)).
Proof.
  split.
  - intros x0 m v0 l calls self self' Hi Hu.
    apply init_Ok_inv in Hi as (_ & _ & ->).
    pose proof (constructed_current_is_last x0 m v0 l) as Hc.
    split; [exact Hc |]. eapply update_all_current_is_last; eassumption.
  - intros fuel Box1 Box2 lb r s' H1 H2. unfold elastic_collision_sim.
    destruct (preconditions Box1 Box2 lb); [| discriminate].
    destruct (while_True fuel lb 0 (Box1, Box2)) as [[[[c dt] | e] s1] |] eqn:E;
      try discriminate.
    intros [= <- <-]. cbn [Box_1 Box_2].
    apply run_Ok_reaches in E.
    apply (reaches_current_is_last _ _ _ _ _ E); assumption.
Qed.

(** ** Frames *)


Lemma py_int_times_zero (q : Q) : py_int (q * inject_Z 0) = 0%Z.
Proof.
  unfold py_int. cbn [Qmult Qnum inject_Z]. now rewrite Z.mul_0_r.
Qed.



Lemma np_linspace_length (start stop : Q) (num : Z) :
  (0 <= num)%Z ->
  exists seg, np_linspace start stop num = Done seg /\
              length seg = Z.to_nat num.
Proof.
  intros Hn. unfold np_linspace.
  destruct (num <? 0)%Z eqn:E; [apply Z.ltb_lt in E; lia |].
  cbv zeta. destruct (0 <? num - 1)%Z eqn:E1.
  - apply Z.ltb_lt in E1. eexists. split; [reflexivity |].
    rewrite length_app, length_map, length_seq. cbn [length]. lia.
  - apply Z.ltb_ge in E1. destruct (num =? 1)%Z eqn:E2.
    + apply Z.eqb_eq in E2. subst. eexists. split; reflexivity.
    + apply Z.eqb_neq in E2. eexists. split; [reflexivity |].
      cbn [length]. lia.
Qed.

Lemma np_linspace_negative (start stop : Q) (num : Z) :
  (num < 0)%Z -> np_linspace start stop num = Failed ValueError_samples.
Proof.
  intros Hn. unfold np_linspace. apply Z.ltb_lt in Hn. now rewrite Hn.
Qed.

Lemma np_linspace_cases (start stop : Q) (num : Z) :
  (exists seg, np_linspace start stop num = Done seg) \/
  np_linspace start stop num = Failed ValueError_samples.
Proof.
  destruct (Z.lt_ge_cases num 0) as [H | H].
  - right. now apply np_linspace_negative.
  - left. destruct (np_linspace_length start stop num H) as (seg & E & _). eauto.
Qed.


Lemma item_in_range (a : list Q) (i : nat) :
  (i < length a)%nat -> exists q, item a i = Done q.
Proof.
  intros H. unfold item. destruct (nth_error a i) eqn:E; [eauto |].
  apply nth_error_None in E. lia.
Qed.

Lemma last_of_nonempty (a : list Q) : a <> [] -> last_of a = Done (last a 0).
Proof. destruct a; [congruence | reflexivity]. Qed.





(** The same loop raises no [IndexError] on histories long enough,
    whatever [fps]. *)
Lemma sample_events_no_IndexError (fps : Z) (x_hist1 x_hist2 : list Q) :
  length x_hist2 = length x_hist1 ->
  forall dt_arr i x1 x2 cf,
    (1 <= i)%nat -> (i + length dt_arr = length x_hist1)%nat ->
    (exists r, sample_events fps x_hist1 x_hist2 i dt_arr x1 x2 cf = Done r) \/
    sample_events fps x_hist1 x_hist2 i dt_arr x1 x2 cf = Failed ValueError_samples.
Proof.
  intros Hlen. induction dt_arr as [| dt rest IH]; intros i x1 x2 cf Hi Hrange.
  - left. eexists. reflexivity.
  - cbn [length] in Hrange. cbn [sample_events]. cbv zeta.
    destruct (item_in_range x_hist1 (i - 1)) as [a1 Ea1]; [lia |].
    destruct (item_in_range x_hist1 i) as [b1 Eb1]; [lia |].
    destruct (item_in_range x_hist2 (i - 1)) as [a2 Ea2]; [lia |].
    destruct (item_in_range x_hist2 i) as [b2 Eb2]; [lia |].
    rewrite Ea1, Eb1. cbn [and_then].
    destruct (np_linspace_cases a1 b1 (py_int (dt * inject_Z fps) + 1))
      as [[seg1 ->] | ->]; cbn [and_then]; [| now right].
    rewrite Ea2, Eb2. cbn [and_then].
    destruct (np_linspace_cases a2 b2 (py_int (dt * inject_Z fps) + 1))
      as [[seg2 ->] | ->]; cbn [and_then]; [| now right].
    apply IH; lia.
Qed.

(** With [fps = 0] the loop adds no frame. *)
Lemma sample_events_no_frames (x_hist1 x_hist2 : list Q) :
  length x_hist2 = length x_hist1 ->
  forall dt_arr i x1 x2 cf,
    (1 <= i)%nat -> (i + length dt_arr = length x_hist1)%nat ->
    exists cf', sample_events 0 x_hist1 x_hist2 i dt_arr x1 x2 cf = Done (x1, x2, cf').
Proof.
  intros Hlen. induction dt_arr as [| dt rest IH]; intros i x1 x2 cf Hi Hrange.
  - eexists. reflexivity.
  - cbn [length] in Hrange. cbn [sample_events]. cbv zeta.
    rewrite py_int_times_zero.
    destruct (item_in_range x_hist1 (i - 1)) as [a1 Ea1]; [lia |].
    destruct (item_in_range x_hist1 i) as [b1 Eb1]; [lia |].
    destruct (item_in_range x_hist2 (i - 1)) as [a2 Ea2]; [lia |].
    destruct (item_in_range x_hist2 i) as [b2 Eb2]; [lia |].
    rewrite Ea1, Eb1, Ea2, Eb2. cbn. rewrite !app_nil_r.
    apply IH; lia.
Qed.

Lemma aligned_histories (s : store) :
  aligned s ->
  length (Box.x_hist (snd s)) = length (Box.x_hist (fst s)) /\
  (1 + length (np_diff (Box.times (fst s))) = length (Box.x_hist (fst s)))%nat /\
  Box.x_hist (fst s) <> [] /\ Box.x_hist (snd s) <> [] /\
  Box.v_hist (fst s) <> [] /\ Box.v_hist (snd s) <> [] /\
  Box.times (fst s) <> [].
Proof.
  intros [[Hx1 Hv1 _ Hl1 _] [Hx2 Hv2 _ Hl2 _] Ht].
  rewrite np_diff_length. rewrite <- Ht in Hx2, Hv2, Hl2.
  assert (Hne : forall a : list Q, (1 <= length a)%nat -> a <> [])
    by (intros [| ? ?] H; [cbn in H; lia | discriminate]).
  repeat split; try (apply Hne); lia.
Qed.



(** X15: for the same boxes a frame rate that is not positive makes
    [prepare_animation_data] fail: [fps = 0] leaves no frame at all and
    the report line that reads the last one raises [IndexError] (before
    the division by [fps] is reached); [fps < 0] makes [np.linspace]
    refuse a negative number of samples. *)
Theorem prepare_animation_data_needs_positive_fps (Box1 Box2 : Box.t) (fps : Z) :
  aligned (Box1, Box2) ->
  (fps = 0%Z -> prepare_animation_data Box1 Box2 fps = Failed (Py IndexError)) /\
  ((fps < 0)%Z -> prepare_animation_data Box1 Box2 fps = Failed ValueError_samples).
Proof.
  intros Ha.
  pose proof (aligned_histories _ Ha) as (Hlen & Hrange & Hx1 & Hx2 & Hv1 & Hv2 & Ht).
  cbn [fst snd] in *. split.
  - intros ->.
    destruct (sample_events_no_frames (Box.x_hist Box1) (Box.x_hist Box2) Hlen
                (np_diff (Box.times Box1)) 1 [] [] [])
      as (cf & Hrun); [lia | assumption |].
    unfold prepare_animation_data. cbv zeta. rewrite Hrun. cbn [and_then].
    rewrite (last_of_nonempty _ Hx1), (last_of_nonempty _ Hv1). cbn [and_then].
    change (np_linspace ?a ?b (5 * 0)) with (@Done (list Q) []). cbn [and_then].
    rewrite (last_of_nonempty _ Hx2), (last_of_nonempty _ Hv2). cbn [and_then].
    reflexivity.
  - intros Hfps. unfold prepare_animation_data. cbv zeta.
    destruct (sample_events_no_IndexError fps (Box.x_hist Box1) (Box.x_hist Box2)
                Hlen (np_diff (Box.times Box1)) 1 [] [] [])
      as [[[[x1 x2] cf] ->] | ->]; try lia; try assumption; cbn [and_then];
      [| reflexivity].
    rewrite (last_of_nonempty _ Hx1), (last_of_nonempty _ Hv1). cbn [and_then].
    rewrite np_linspace_negative by lia. reflexivity.
Qed.

Lemma prepare_animation_data_needs_positive_fps_witness :
  prepare_animation_data (constructed 3 1 0 1) (constructed 8 1 (-1) 1) 0 =
  Failed (Py IndexError) /\
  prepare_animation_data (constructed 3 1 0 1) (constructed 8 1 (-1) 1) (-60) =
  Failed ValueError_samples.
Proof.
  destruct (prepare_animation_data_needs_positive_fps
              (constructed 3 1 0 1) (constructed 8 1 (-1) 1) 0
              (constructed_aligned 3 1 0 1 8 1 (-1) 1)) as [H0 _].
  destruct (prepare_animation_data_needs_positive_fps
              (constructed 3 1 0 1) (constructed 8 1 (-1) 1) (-60)
              (constructed_aligned 3 1 0 1 8 1 (-1) 1)) as [_ Hn].
  split; [apply H0; reflexivity | apply Hn; reflexivity].
Defined.

Lemma returned_state_is_terminal_witness :
  exists r s',
    elastic_collision_sim 4 (constructed 3 1 0 1) (constructed 8 1 (-1) 1) 0
    = Some (Ok r, s') /\
    0 <= Box.v (Box_1 r) /\ Box.v (Box_1 r) < Box.v (Box_2 r) /\
    (1 <= Collisions r)%nat.
Proof.
  pose proof (returned_state_is_terminal
                4%nat (constructed 3 1 0 1) (constructed 8 1 (-1) 1) 0) as H.
  do 2 eexists. split; [vm_compute; reflexivity |].
  edestruct H as (H1 & H2 & _ & H3); [vm_compute; reflexivity |].
  split; [exact H1 | split; [exact H2 | apply H3; reflexivity]].
Defined.


